(** * k3sup [install]: credential resolution, loopback rewrite, merge and
      persistence of the kubeconfig

    A shallow embedding of [pkg/cmd/install.go].  The Go code is a sequence
    of calls into the operating system (files, sockets, a subprocess, the
    terminal) and into the ssh libraries.  The embedding threads an explicit
    [World] through every call: the file system is a finite map from resolved
    paths to files, the observable effects (writes to standard output, dials,
    remote commands, subprocess runs) are appended to a trace, and the
    libraries whose code is outside the repository are the fields of an
    [Env] record.

    Go types:  [string] is [string]; [[]byte] is [list byte]; [error] is the
    text of [err.Error()], [nil] being [None]; a [(value, error)] pair whose
    value is meaningless on error is a [result]. *)

From Stdlib Require Import ZArith Lia List.
From Stdlib.Strings Require Import Ascii String Byte.
From stdpp Require Import base strings gmap list pretty.

Local Open Scope Z_scope.

(** ** Values *)

Definition error := string.

Inductive result (A : Type) : Type :=
| Ok (a : A)
| Err (e : error).
Arguments Ok {A} a.
Arguments Err {A} e.

(** [errors.Wrapf(err, msg)]: the message, a colon, the cause. *)
Definition errors_Wrapf (e : error) (msg : string) : error :=
  msg +:+ ": " +:+ e.

(** [fmt.Errorf(msg ++ "%s", err)]. *)
Definition fmt_Errorf (msg : string) (e : error) : error :=
  msg +:+ e.

(** A file of the local file system: permission bits and contents. *)
Record File := { f_mode : Z; f_data : list byte }.

(** Permission bits, written in octal in the Go source. *)
Definition perm_0600 : Z := 384.
Definition perm_0644 : Z := 420.
Definition perm_0077 : Z := 63.

(** [ssh.Signer], identified by the public key it signs for. *)
Record Signer := { signer_key : list byte }.

(** [agent.Key]: the marshaled public key held by the agent. *)
Record AgentKey := { Blob : list byte; Comment : string }.

(** The agent listening on [$SSH_AUTH_SOCK]: the keys it holds, and the
    error its [List] request answers with, if any. *)
Record Agent := { agent_keys : list AgentKey; agent_list_err : option error }.

(** [ssh.AuthMethod].  [ssh.PublicKeys] wraps signers that are already in
    hand; [ssh.PublicKeysCallback] wraps a function that is asked for the
    signers when the client authenticates. *)
Inductive AuthMethod :=
| PublicKeys (signers : list Signer)
| PublicKeysCallback (getSigners : unit -> list Signer * option error).

(** The release function returned next to the authentication method. *)
Inductive CloseFunc :=
| noopCloseFunc            (* func() error { return nil } *)
| sshAgentConn_Close.      (* the Close method of the agent connection *)

(** [kssh.CommandRes]. *)
Record CommandResult := { StdOut : list byte; StdErr : list byte }.

(** [ssh.ClientConfig], with the fields the command sets. *)
Inductive HostKeyCallback := InsecureIgnoreHostKey.
Record ClientConfig :=
  { User : string; Auth : list (option AuthMethod); HostKey : HostKeyCallback }.

(** ** Effects *)

Inductive Event :=
| EvStdout (s : string)           (* fmt.Print*, written to standard output *)
| EvReadPassword                  (* terminal.ReadPassword on standard input *)
| EvAgentDial                     (* net.Dial("unix", $SSH_AUTH_SOCK) *)
| EvAgentClose                    (* the agent connection is closed *)
| EvSSHDial (address : string)    (* network dial of the remote host *)
| EvSSHExec (command : string)    (* a command sent over the session *)
| EvSSHClose                      (* the session is closed *)
| EvFileClose (name : string)     (* the temporary file's handle is closed *)
| EvKubectl (env : string).       (* kubectl config view --merge --flatten *)

(** Requests to the operating system that can fail for reasons outside the
    model (permission, I/O error, full table). *)
Inductive Op :=
| OpOpenRead (p : string)
| OpOpenWrite (p : string)
| OpRemove (p : string)
| OpTempFile.

Record World := {
  fs : gmap string File;                (* resolved path -> file *)
  cwd : string;                         (* working directory, below the root *)
  umask : Z;
  tmpdir : string;                      (* os.TempDir() *)
  tmp_random : list string;             (* the random parts TempFile draws *)
  os_fault : Op -> option error;        (* failures injected by the system *)
  disk_room : string -> option nat;     (* bytes a write accepts, if bounded *)
  agent : option Agent;                 (* None: the socket is unreachable *)
  stdin_password : list byte * option error;  (* what ReadPassword returns *)
  trace : list Event
}.

Definition set_fs (f : gmap string File -> gmap string File) (w : World) : World :=
  {| fs := f (fs w); cwd := cwd w; umask := umask w; tmpdir := tmpdir w;
     tmp_random := tmp_random w; os_fault := os_fault w;
     disk_room := disk_room w; agent := agent w;
     stdin_password := stdin_password w; trace := trace w |}.

Definition add_event (e : Event) (w : World) : World :=
  {| fs := fs w; cwd := cwd w; umask := umask w; tmpdir := tmpdir w;
     tmp_random := tmp_random w; os_fault := os_fault w;
     disk_room := disk_room w; agent := agent w;
     stdin_password := stdin_password w; trace := trace w ++ [e] |}.

(** The state monad of the embedding. *)
Definition M (A : Type) : Type := World -> A * World.

Definition ret {A} (a : A) : M A := fun w => (a, w).
Definition bind {A B} (m : M A) (k : A -> M B) : M B :=
  fun w => let (a, w') := m w in k a w'.

Notation "'do' p <- m ; k" := (bind m (fun p => k))
  (at level 10, p pattern, m at level 100, k at level 200).
Notation "m ;; k" := (bind m (fun _ => k))
  (at level 100, k at level 200, right associativity).

Definition emit (e : Event) : M unit := fun w => (tt, add_event e w).

(** [defer d] in front of [body]: [d] runs when [body] has returned. *)
Definition defer {A} (d : M unit) (body : M A) : M A :=
  do a <- body; d;; ret a.

Definition fmt_Printf (s : string) : M unit := emit (EvStdout s).

Definition newline : string := String (ascii_of_nat 10) "".
Definition fmt_Println (s : string) : M unit := emit (EvStdout (s +:+ newline)).

(** ** The operating system *)

Definition is_abs (path : string) : bool := String.prefix "/" path.

(** *** [filepath.Clean], [filepath.Join] and [filepath.Abs]

    The elements of a path: the pieces between its separators, the empty
    ones (before a leading separator, between doubled ones, after a trailing
    one) included. *)
Fixpoint split_slash (s : string) : list string :=
  match s with
  | EmptyString => [EmptyString]
  | String c s' =>
      if Ascii.eqb c "/" then EmptyString :: split_slash s'
      else match split_slash s' with
           | [] => [String c EmptyString]
           | x :: xs => String c x :: xs
           end
  end.

(** [strings.Join(elem, "/")]. *)
Fixpoint join_slash (elem : list string) : string :=
  match elem with
  | [] => ""
  | x :: xs =>
      match xs with
      | [] => x
      | _ :: _ => x +:+ "/" +:+ join_slash xs
      end
  end.

(** One element read by [filepath.Clean]; [out] holds the elements written
    so far, the last one first.  An empty element and [.] are skipped; [..]
    takes back the last element written, unless there is none or it is a
    [..] itself, where it is dropped in a rooted path and written in a
    relative one; any other element is written. *)
Definition clean_step (rooted : bool) (out : list string) (elem : string)
  : list string :=
  if String.eqb elem "" || String.eqb elem "." then out
  else if String.eqb elem ".." then
    match out with
    | top :: rest => if String.eqb top ".." then elem :: out else rest
    | [] => if rooted then [] else [elem]
    end
  else elem :: out.

(** [filepath.Clean] on a system whose separator is [/]: the shortest path
    that names the same file by lexical processing.  A rooted path keeps its
    leading separator; a relative path that cleans to nothing is [.]. *)
Definition filepath_Clean (path : string) : string :=
  let rooted := is_abs path in
  let elems := rev (fold_left (clean_step rooted) (split_slash path) []) in
  if rooted then "/" +:+ join_slash elems
  else match elems with
       | [] => "."
       | _ :: _ => join_slash elems
       end.

(** [filepath.Join]: the elements from the first one that is not empty on,
    joined by the separator and cleaned; empty when all are empty. *)
Fixpoint filepath_Join (elem : list string) : string :=
  match elem with
  | [] => ""
  | e :: rest =>
      if String.eqb e "" then filepath_Join rest
      else filepath_Clean (join_slash elem)
  end.

(** An element of a clean rooted path: not empty, not [.] or [..], and
    without a separator. *)
Fixpoint no_slash (s : string) : bool :=
  match s with
  | EmptyString => true
  | String c s' => negb (Ascii.eqb c "/") && no_slash s'
  end.

Definition plain (e : string) : Prop :=
  no_slash e = true /\ String.eqb e "" = false /\ String.eqb e "." = false
  /\ String.eqb e ".." = false.

(** The absolute, clean name of a path in world [w]: [filepath.Clean] of an
    absolute path, and of the path joined to the working directory for a
    relative one.  It is what [filepath.Abs] returns, and the name under
    which the system calls below find the file (there are no links in the
    model, so a file has one clean absolute name). *)
Definition resolve (w : World) (path : string) : string :=
  filepath_Clean (if is_abs path then path else "/" +:+ cwd w +:+ "/" +:+ path).

(** [filepath.Abs]; its error (a failing [Getwd]) is not modelled, and the
    callers discard it. *)
Definition filepath_Abs (path : string) : M string :=
  fun w => (resolve w path, w).

(** [ioutil.ReadFile]. *)
Definition ioutil_ReadFile (filename : string) : M (result (list byte)) :=
  fun w =>
    let p := resolve w filename in
    match os_fault w (OpOpenRead p) with
    | Some e => (Err e, w)
    | None =>
        match fs w !! p with
        | Some f => (Ok (f_data f), w)
        | None => (Err ("open " +:+ filename +:+ ": no such file or directory"), w)
        end
    end.

(** [ioutil.WriteFile]: open with O_WRONLY|O_CREATE|O_TRUNC and [perm], write,
    close.  A missing file is created with [perm] less the umask; an existing
    one is truncated and keeps its permission bits.  A write that the disk
    cuts short leaves the bytes that fitted and reports an error. *)
Definition ioutil_WriteFile (filename : string) (data : list byte) (perm : Z)
  : M (option error) :=
  fun w =>
    let p := resolve w filename in
    match os_fault w (OpOpenWrite p) with
    | Some e => (Some e, w)
    | None =>
        let mode := match fs w !! p with
                    | Some f => f_mode f
                    | None => Z.ldiff perm (umask w)
                    end in
        let written := match disk_room w p with
                       | Some n => take n data
                       | None => data
                       end in
        let w' := set_fs (insert p {| f_mode := mode; f_data := written |}) w in
        if (length written <? length data)%nat
        then (Some "short write", w')
        else (None, w')
    end.

(** [os.Remove]. *)
Definition os_Remove (name : string) : M (option error) :=
  fun w =>
    let p := resolve w name in
    match os_fault w (OpRemove p) with
    | Some e => (Some e, w)
    | None =>
        match fs w !! p with
        | Some _ => (None, set_fs (delete p) w)
        | None => (Some ("remove " +:+ name +:+ ": no such file or directory"), w)
        end
    end.

(** The first candidate name that is not taken; a candidate is
    [filepath.Join(dir, prefix + random)]. *)
Fixpoint first_free (w : World) (dir pfx : string) (rs : list string)
  : option string :=
  match rs with
  | [] => None
  | r :: rs' =>
      match fs w !! resolve w (filepath_Join [dir; pfx +:+ r]) with
      | Some _ => first_free w dir pfx rs'
      | None => Some (filepath_Join [dir; pfx +:+ r])
      end
  end.

(** [ioutil.TempFile(dir, prefix ++ "*")]: an empty [dir] stands for
    [os.TempDir()]; draws random names until one is free, and creates that
    file, empty, with O_EXCL and mode 0600.  The result is the name of the
    file ([file.Name()]). *)
Definition ioutil_TempFile (dir pfx : string) : M (result string) :=
  fun w =>
    match os_fault w OpTempFile with
    | Some e => (Err e, w)
    | None =>
        match first_free w (if String.eqb dir "" then tmpdir w else dir) pfx
                (tmp_random w) with
        | None => (Err "file exists", w)
        | Some name =>
            (Ok name,
             set_fs (insert (resolve w name)
                       {| f_mode := Z.ldiff perm_0600 (umask w); f_data := [] |}) w)
        end
    end.

Definition os_TempDir : M string := fun w => (tmpdir w, w).

(** ** [strings.NewReplacer(...).Replace]

    The Go library's generic replacer, for old strings that are not empty
    (both literals of the command are nine bytes long): the text is scanned
    from the left; at each position the first pair, in argument order, whose
    old string starts there is taken, its new string is written and the scan
    resumes after the old string; where none starts, the byte is copied. *)

Fixpoint replacer_lookup (oldnew : list (string * string)) (s : string)
  : option (string * string) :=
  match oldnew with
  | [] => None
  | (old, new) :: rest =>
      if String.prefix old s then Some (old, new) else replacer_lookup rest s
  end.

(** [skip] counts the bytes of a matched old string still to be passed. *)
Fixpoint Replace_from (oldnew : list (string * string)) (skip : nat) (s : string)
  : string :=
  match s with
  | EmptyString => EmptyString
  | String c s' =>
      match skip with
      | S k => Replace_from oldnew k s'
      | O =>
          match replacer_lookup oldnew s with
          | Some (old, new) =>
              new +:+ Replace_from oldnew (Nat.pred (String.length old)) s'
          | None => String c (Replace_from oldnew O s')
          end
      end
  end.

Definition strings_Replace (oldnew : list (string * string)) (s : string) : string :=
  Replace_from oldnew O s.

(** The replacer of [MakeInstall]:
    [strings.NewReplacer("localhost", ip, "127.0.0.1", ip)]. *)
Definition loopback_replacer (ip : string) : list (string * string) :=
  [("localhost", ip); ("127.0.0.1", ip)].

(** [[]byte(strings.NewReplacer(...).Replace(string(stdout)))]. *)
Definition rewriteLoopback (doc : list byte) (ip : string) : list byte :=
  list_byte_of_string
    (strings_Replace (loopback_replacer ip) (string_of_list_byte doc)).

(** [bytes.Equal]. *)
Fixpoint bytes_Equal (a b : list byte) : bool :=
  match a, b with
  | [], [] => true
  | x :: a', y :: b' => Byte.eqb x y && bytes_Equal a' b'
  | _, _ => false
  end.

(** ** The key agent *)

(** [sshAgent.List()]. *)
Definition agent_List (a : Agent) : list AgentKey * option error :=
  match agent_list_err a with
  | Some e => ([], Some e)
  | None => (agent_keys a, None)
  end.

(** [sshAgent.Signers]: one signer for each key the agent lists. *)
Definition agent_Signers (a : Agent) (_ : unit) : list Signer * option error :=
  let (keys, err) := agent_List a in
  (map (fun k => {| signer_key := Blob k |}) keys, err).

(** [net.Dial("unix", os.Getenv("SSH_AUTH_SOCK"))]; [None] is a dial error. *)
Definition net_Dial_SSH_AUTH_SOCK : M (option Agent) :=
  emit EvAgentDial;; fun w => (agent w, w).

Definition run_close (c : CloseFunc) : M unit :=
  match c with
  | noopCloseFunc => ret tt
  | sshAgentConn_Close => emit EvAgentClose
  end.

(** [terminal.ReadPassword(int(os.Stdin.Fd()))]. *)
Definition terminal_ReadPassword : M (list byte * option error) :=
  emit EvReadPassword;; fun w => (stdin_password w, w).

(** The signers an authentication method offers to the server. *)
Definition offered (am : AuthMethod) : list Signer :=
  match am with
  | PublicKeys signers => signers
  | PublicKeysCallback getSigners => fst (getSigners tt)
  end.

(** What a subprocess reads at a path. *)
Definition file_reader (w : World) (path : string) : option (list byte) :=
  f_data <$> fs w !! resolve w path.

(** ** Libraries outside the repository *)

Record Env := {
  (* golang.org/x/crypto/ssh *)
  ssh_ParsePrivateKey : list byte -> result Signer;
  ssh_ParsePrivateKeyWithPassphrase : list byte -> list byte -> result Signer;
  ssh_ParseAuthorizedKey : list byte -> result (list byte);  (* authkey.Marshal() *)
  (* the remote host: the handshake, and the answer to a command given the
     commands already run *)
  ssh_handshake : string -> ClientConfig -> option error;
  remote_run : list string -> string -> result CommandResult;
  (* kubectl config view --merge --flatten, given a reader of the local
     files and the added environment entry *)
  kubectl_config_view : (string -> option (list byte)) -> string -> result (list byte);
  (* github.com/mitchellh/go-homedir, strings.TrimSpace, the verb %q *)
  homedir_Expand : string -> string * option error;
  strings_TrimSpace : string -> string;
  fmt_q : string -> string
}.

Section Install.

Variable E : Env.

(** ** [writeConfig] *)

Definition writeConfig (path : string) (data : list byte) (suppressMessage : bool)
  : M (option error) :=
  do absPath <- filepath_Abs path;
  (if negb suppressMessage
   then fmt_Printf ("Saving file to: " +:+ absPath +:+ newline)
   else ret tt);;
  do writeErr <- ioutil_WriteFile absPath data perm_0600;
  match writeErr with
  | Some e => ret (Some e)
  | None => ret None
  end.

(** ** [mergeConfigs] *)

(** [cmd.Output()] of [kubectl config view --merge --flatten] with the
    environment extended by [env]. *)
Definition exec_kubectl (env : string) : M (result (list byte)) :=
  emit (EvKubectl env);;
  fun w => (kubectl_config_view E (file_reader w) env, w).

Definition mergeConfigs (localKubeconfigPath : string) (k3sconfig : list byte)
  : M (result (list byte)) :=
  do dir <- os_TempDir;
  do file <- ioutil_TempFile dir "k3s-temp-";
  match file with
  | Err e =>
      ret (Err (fmt_Errorf
        "Could not generate a temporary file to store the kuebeconfig: " e))
  | Ok file_Name =>
      defer (emit (EvFileClose file_Name)) (
        do writeErr <- writeConfig file_Name k3sconfig true;
        match writeErr with
        | Some e => ret (Err e)
        | None =>
            fmt_Printf ("Merging with existing kubeconfig at "
                        +:+ localKubeconfigPath +:+ newline);;
            let appendKubeConfigENV :=
              "KUBECONFIG=" +:+ localKubeconfigPath +:+ ":" +:+ file_Name in
            do data <- exec_kubectl appendKubeConfigENV;
            match data with
            | Err e => ret (Err (fmt_Errorf "Could not merge kubeconfigs: " e))
            | Ok data =>
                do err <- os_Remove file_Name;
                match err with
                | Some e =>
                    ret (Err (errors_Wrapf e
                      ("Could not remove temporary kubeconfig file: " +:+ file_Name)))
                | None => ret (Ok data)
                end
            end
        end)
  end.

(** ** [sshAgent] *)

(** The loop over the agent's keys: is some blob the local public key? *)
Fixpoint some_key_matches (keys : list AgentKey) (parsedkey : list byte) : bool :=
  match keys with
  | [] => false
  | key :: keys' =>
      if bytes_Equal (Blob key) parsedkey then true
      else some_key_matches keys' parsedkey
  end.

Definition sshAgent (publicKeyPath : string) : M (option AuthMethod * CloseFunc) :=
  do conn <- net_Dial_SSH_AUTH_SOCK;
  match conn with
  | Some sshAgent =>
      let keys := fst (agent_List sshAgent) in
      if (length keys =? 0)%nat then ret (None, sshAgentConn_Close)
      else
        do pubkey <- ioutil_ReadFile publicKeyPath;
        match pubkey with
        | Err _ => ret (None, sshAgentConn_Close)
        | Ok pubkey =>
            match ssh_ParseAuthorizedKey E pubkey with
            | Err _ => ret (None, sshAgentConn_Close)
            | Ok parsedkey =>
                if some_key_matches keys parsedkey
                then ret (Some (PublicKeysCallback (agent_Signers sshAgent)),
                          sshAgentConn_Close)
                else ret (None, noopCloseFunc)
            end
        end
  | None => ret (None, noopCloseFunc)
  end.

(** ** [loadPublickey] *)

Definition encrypted_key_message : string :=
  "ssh: cannot decode encrypted private keys".

Definition loadPublickey (path : string)
  : M (option AuthMethod * CloseFunc * option error) :=
  do key <- ioutil_ReadFile path;
  match key with
  | Err err => ret (None, noopCloseFunc, Some err)
  | Ok key =>
      match ssh_ParsePrivateKey E key with
      | Ok signer => ret (Some (PublicKeys [signer]), noopCloseFunc, None)
      | Err err =>
          if negb (String.eqb err encrypted_key_message)
          then ret (None, noopCloseFunc, Some err)
          else
            do r <- sshAgent (path +:+ ".pub");
            let (agent, close) := r in
            match agent with
            | Some a => ret (Some a, close, None)
            | None =>
                defer (run_close close) (
                  fmt_Printf ("Enter passphrase for '" +:+ path +:+ "': ");;
                  do r <- terminal_ReadPassword;
                  let (bytePassword, _) := r in
                  fmt_Println "";;
                  match ssh_ParsePrivateKeyWithPassphrase E key bytePassword with
                  | Err err => ret (None, noopCloseFunc, Some err)
                  | Ok signer =>
                      ret (Some (PublicKeys [signer]), noopCloseFunc, None)
                  end)
            end
      end
  end.

(** ** The remote session *)

(** The commands sent over the session so far. *)
Fixpoint executed (tr : list Event) : list string :=
  match tr with
  | [] => []
  | EvSSHExec c :: tr' => c :: executed tr'
  | _ :: tr' => executed tr'
  end.

(** Modelled from the spec: [kssh.NewSSHOperator] of [pkg/ssh], which is not
    among the sources.  Opening performs a network dial, the handshake and the
    authentication with the resolved method. *)
Definition NewSSHOperator (address : string) (config : ClientConfig)
  : M (result string) :=
  emit (EvSSHDial address);;
  match ssh_handshake E address config with
  | Some e => ret (Err e)
  | None => ret (Ok address)
  end.

(** Modelled from the spec: [operator.Execute] of [pkg/ssh].  The command
    string is written to one channel of the session and the call returns the
    standard output and standard error collected when the remote process has
    ended. *)
Definition operator_Execute (command : string) : M (result CommandResult) :=
  fun w => (remote_run E (executed (trace w)) command,
            add_event (EvSSHExec command) w).

(** Modelled from the spec: [operator.Close] of [pkg/ssh], which releases the
    connection. *)
Definition operator_Close : M unit := emit EvSSHClose.

(** ** The command *)

(** The flags of [k3sup install]; [ip] is the text [ip.String()]. *)
Record Flags := {
  ip : string;
  user : string;
  ssh_key : string;
  ssh_port : Z;
  skip_install : bool;
  local_path : string;
  k3s_extra_args : string;
  merge : bool;
  k3s_version : string
}.

Definition expandPath (path : string) : string :=
  fst (homedir_Expand E path).

Definition getConfigcommand : string :=
  "sudo cat /etc/rancher/k3s/k3s.yaml" +:+ newline.

Definition installK3scommand (fl : Flags) : string :=
  "curl -sLS https://get.k3s.io | INSTALL_K3S_EXEC='server --tls-san "
  +:+ ip fl +:+ " " +:+ strings_TrimSpace E (k3s_extra_args fl)
  +:+ "' INSTALL_K3S_VERSION='" +:+ k3s_version fl +:+ "' sh -" +:+ newline.

Definition print_result (res : CommandResult) : M unit :=
  fmt_Printf ("Result: " +:+ string_of_list_byte (StdOut res) +:+ " "
              +:+ string_of_list_byte (StdErr res) +:+ newline).

Definition command_error (e : error) : error :=
  fmt_Errorf "Error received processing command: " e.

(** [command.RunE] of [MakeInstall]. *)
Definition RunE (fl : Flags) : M (option error) :=
  let localKubeconfig := local_path fl in
  let skipInstall := skip_install fl in
  let port := ssh_port fl in
  fmt_Println ("Public IP: " +:+ ip fl);;
  let sshKeyPath := expandPath (ssh_key fl) in
  fmt_Printf ("ssh -i " +:+ sshKeyPath +:+ " " +:+ user fl +:+ "@" +:+ ip fl
              +:+ newline);;
  do r <- loadPublickey sshKeyPath;
  let '(authMethod, closeSSHAgent, err) := r in
  match err with
  | Some err =>
      ret (Some (errors_Wrapf err
        ("unable to load the ssh key with path " +:+ fmt_q E sshKeyPath)))
  | None =>
      defer (run_close closeSSHAgent) (
        let config := {| User := user fl; Auth := [authMethod];
                         HostKey := InsecureIgnoreHostKey |} in
        let address := ip fl +:+ ":" +:+ pretty port in
        do operator <- NewSSHOperator address config;
        match operator with
        | Err err =>
            ret (Some (errors_Wrapf err
              ("unable to connect to " +:+ address +:+ " over ssh")))
        | Ok _ =>
            defer operator_Close (
              do installErr <-
                (if negb skipInstall then
                   fmt_Printf ("ssh: " +:+ installK3scommand fl +:+ newline);;
                   do res <- operator_Execute (installK3scommand fl);
                   match res with
                   | Err err => ret (Some (command_error err))
                   | Ok res => print_result res;; ret None
                   end
                 else ret None);
              match installErr with
              | Some e => ret (Some e)
              | None =>
                  fmt_Printf ("ssh: " +:+ getConfigcommand +:+ newline);;
                  do res <- operator_Execute getConfigcommand;
                  match res with
                  | Err err => ret (Some (command_error err))
                  | Ok res =>
                      print_result res;;
                      do absPath <- filepath_Abs localKubeconfig;
                      let kubeconfig := rewriteLoopback (StdOut res) (ip fl) in
                      do merged <-
                        (if merge fl then mergeConfigs absPath kubeconfig
                         else ret (Ok kubeconfig));
                      match merged with
                      | Err err => ret (Some err)
                      | Ok kubeconfig =>
                          do writeErr <- writeConfig absPath kubeconfig false;
                          match writeErr with
                          | Some e => ret (Some e)
                          | None => ret None
                          end
                      end
                  end
              end)
        end)
  end.

End Install.

Arguments writeConfig path data suppressMessage _ : simpl never.

(** ** A concrete machine

    One environment and a few worlds on which the functions are run. *)

Module Demo.

Definition bytes (s : string) : list byte := list_byte_of_string s.

Definition plain_key : list byte := bytes "PLAIN KEY alice".
Definition locked_key : list byte := bytes "LOCKED KEY alice".
Definition alice_pub : list byte := bytes "ssh-ed25519 alice".
Definition bob_pub : list byte := bytes "ssh-ed25519 bob".

Definition parse_private (key : list byte) : result Signer :=
  if bytes_Equal key plain_key then Ok {| signer_key := alice_pub |}
  else if bytes_Equal key locked_key then Err encrypted_key_message
  else Err "ssh: no key found".

Definition parse_with_passphrase (key pass : list byte) : result Signer :=
  if bytes_Equal key locked_key && bytes_Equal pass (bytes "hunter2")
  then Ok {| signer_key := alice_pub |}
  else Err "x509: decryption password incorrect".

Definition parse_authorized (pub : list byte) : result (list byte) :=
  match pub with
  | [] => Err "ssh: no key found"
  | _ => Ok pub
  end.

Definition k3s_yaml : list byte :=
  bytes "server: https://127.0.0.1:6443".

Definition run_remote (_ : list string) (command : string) : result CommandResult :=
  if String.eqb command getConfigcommand
  then Ok {| StdOut := k3s_yaml; StdErr := [] |}
  else Ok {| StdOut := bytes "k3s installed"; StdErr := [] |}.

Definition home_config : string := "/home/alice/kubeconfig".
Definition temp_name : string := "/tmp/k3s-temp-481".

(** A stand-in for kubectl: the two documents, one after the other. *)
Definition kubectl_ok (read : string -> option (list byte)) (env : string)
  : result (list byte) :=
  if String.eqb env ("KUBECONFIG=" +:+ home_config +:+ ":" +:+ temp_name)
  then match read home_config, read temp_name with
       | Some a, Some b => Ok (a ++ bytes "---" ++ b)
       | _, _ => Err "exit status 1"
       end
  else Err "exit status 1".

(** The verb %q on a path without special characters. *)
Definition quoted (s : string) : string :=
  String (ascii_of_nat 34) s +:+ String (ascii_of_nat 34) "".

Definition kubectl_fails (_ : string -> option (list byte)) (_ : string)
  : result (list byte) := Err "exit status 1".

Definition env : Env :=
  {| ssh_ParsePrivateKey := parse_private;
     ssh_ParsePrivateKeyWithPassphrase := parse_with_passphrase;
     ssh_ParseAuthorizedKey := parse_authorized;
     ssh_handshake := fun _ _ => None;
     remote_run := run_remote;
     kubectl_config_view := kubectl_ok;
     homedir_Expand := fun p => (p, None);
     strings_TrimSpace := fun s => s;
     fmt_q := quoted |}.

Definition env_kubectl_fails : Env :=
  {| ssh_ParsePrivateKey := parse_private;
     ssh_ParsePrivateKeyWithPassphrase := parse_with_passphrase;
     ssh_ParseAuthorizedKey := parse_authorized;
     ssh_handshake := fun _ _ => None;
     remote_run := run_remote;
     kubectl_config_view := kubectl_fails;
     homedir_Expand := fun p => (p, None);
     strings_TrimSpace := fun s => s;
     fmt_q := quoted |}.

Definition old_config : list byte := bytes "clusters: old".

Definition home_file : File := {| f_mode := perm_0644; f_data := old_config |}.

Definition files : gmap string File :=
  <[ home_config := home_file ]>
  (<[ "/home/alice/.ssh/id_rsa" := {| f_mode := perm_0600; f_data := plain_key |} ]>
  (<[ "/home/alice/.ssh/id_locked" := {| f_mode := perm_0600; f_data := locked_key |} ]>
  (<[ "/home/alice/.ssh/id_locked.pub" := {| f_mode := perm_0644; f_data := alice_pub |} ]>
  (<[ "/home/alice/.ssh/notes" := {| f_mode := perm_0600; f_data := bytes "not a key" |} ]>
   ∅)))).

Definition no_fault (_ : Op) : option error := None.

Definition remove_fault (op : Op) : option error :=
  match op with
  | OpRemove _ => Some "operation not permitted"
  | _ => None
  end.

Definition the_agent : Agent :=
  {| agent_keys := [ {| Blob := bob_pub; Comment := "bob" |};
                     {| Blob := alice_pub; Comment := "alice" |} ];
     agent_list_err := None |}.

Definition world : World :=
  {| fs := files; cwd := "home/alice"; umask := 18; tmpdir := "/tmp";
     tmp_random := ["481"; "902"]; os_fault := no_fault;
     disk_room := fun _ => None;
     agent := Some the_agent;
     stdin_password := (bytes "hunter2", None);
     trace := [] |}.

Definition world_remove_fails : World :=
  {| fs := files; cwd := "home/alice"; umask := 18; tmpdir := "/tmp";
     tmp_random := ["481"; "902"]; os_fault := remove_fault;
     disk_room := fun _ => None;
     agent := None;
     stdin_password := ([], Some "inappropriate ioctl for device");
     trace := [] |}.

Definition flags_missing_key : Flags :=
  {| ip := "203.0.113.5"; user := "root";
     ssh_key := "/home/alice/.ssh/missing"; ssh_port := 22;
     skip_install := false; local_path := "kubeconfig";
     k3s_extra_args := ""; merge := false; k3s_version := "v0.8.1" |}.

Definition flags_skip_merge : Flags :=
  {| ip := "203.0.113.5"; user := "root";
     ssh_key := "/home/alice/.ssh/id_rsa"; ssh_port := 22;
     skip_install := true; local_path := "kubeconfig";
     k3s_extra_args := ""; merge := true; k3s_version := "v0.8.1" |}.

End Demo.

(** ** The specification's wording

    Properties the specification states, kept as stated so that they can be
    compared with what the code does. *)

(** After a persistence call without error the destination has mode 0600 and
    holds exactly [data]. *)
Definition persisted_owner_only (path : string) (data : list byte) (w w' : World)
  : Prop :=
  exists f, fs w' !! resolve w path = Some f
            /\ f_mode f = perm_0600 /\ f_data f = data.

(** A failing removal of the temporary file, after the merge tool has
    succeeded, is ignored: the merged bytes are returned. *)
Definition remove_failure_ignored (E : Env) (path : string) (doc : list byte)
  (w : World) : Prop :=
  forall name w1 w2 data e,
    ioutil_TempFile (tmpdir w) "k3s-temp-" w = (Ok name, w1) ->
    writeConfig name doc true w1 = (None, w2) ->
    kubectl_config_view E (file_reader w2)
      ("KUBECONFIG=" +:+ path +:+ ":" +:+ name) = Ok data ->
    fst (os_Remove name w2) = Some e ->
    fst (mergeConfigs E path doc w) = Ok data.

(** *** The loopback rewrite *)

Definition loopback_patterns : list string := ["localhost"; "127.0.0.1"].

(** [p] occurs in [s] at offset [j]. *)
Definition occurs_at (p s : string) (j : nat) : Prop :=
  exists a b, s = a +:+ p +:+ b /\ String.length a = j.

(** [Subst addr k doc out sites]: [out] is [doc] with the occurrences of a
    loopback pattern that start at the offsets [sites] replaced by [addr] and
    every other byte copied; offsets are counted from [k] at the head of
    [doc]. *)
Inductive Subst (addr : string) : nat -> string -> string -> list nat -> Prop :=
| Subst_end (k : nat) : Subst addr k "" "" []
| Subst_copy (k : nat) (c : ascii) (s o : string) (sites : list nat) :
    Subst addr (S k) s o sites ->
    Subst addr k (String c s) (String c o) sites
| Subst_replace (k : nat) (p s o : string) (sites : list nat) :
    In p loopback_patterns ->
    Subst addr (k + String.length p) s o sites ->
    Subst addr k (p +:+ s) (addr +:+ o) (k :: sites).

(** ** Observations on a run *)

(** The events a run from [w] to [w'] added to the trace. *)
Definition events_since (w w' : World) : list Event :=
  drop (length (trace w)) (trace w').

(** The commands a run from [w] to [w'] sent over the remote session. *)
Definition commands_since (w w' : World) : list string :=
  drop (length (executed (trace w))) (executed (trace w')).

(** Dials: of the agent socket, or of the remote host. *)
Definition is_dial (ev : Event) : bool :=
  match ev with
  | EvAgentDial | EvSSHDial _ => true
  | _ => false
  end.

(** Use of the terminal for the passphrase. *)
Definition is_prompt (ev : Event) : bool :=
  match ev with
  | EvReadPassword => true
  | _ => false
  end.

(** [w'] is [w] after events that are not remote commands: the machine and
    its files are the same. *)
Definition quiet (w w' : World) : Prop :=
  fs w' = fs w /\ cwd w' = cwd w /\ umask w' = umask w
  /\ tmpdir w' = tmpdir w /\ tmp_random w' = tmp_random w
  /\ os_fault w' = os_fault w /\ disk_room w' = disk_room w
  /\ executed (trace w') = executed (trace w).

(** The world in which the merge tool runs: the temporary file [name] holds
    [doc], next to the files that were there. *)
Definition with_temp_file (name : string) (doc : list byte) (w : World) : World :=
  set_fs (insert (resolve w name)
            {| f_mode := Z.ldiff perm_0600 (umask w); f_data := doc |}) w.

(** The passphrase prompt: the events it adds to the world. *)
Definition prompted (path : string) (w : World) : World :=
  add_event (EvStdout ("" +:+ newline))
    (add_event EvReadPassword
       (add_event (EvStdout ("Enter passphrase for '" +:+ path +:+ "': ")) w)).

(** ** Further cases and the steps of the command *)

Module AgentCases.

Definition with_agent (a : option Agent) (w : World) : World :=
  {| fs := fs w; cwd := cwd w; umask := umask w; tmpdir := tmpdir w;
     tmp_random := tmp_random w; os_fault := os_fault w;
     disk_room := disk_room w; agent := a;
     stdin_password := stdin_password w; trace := trace w |}.

Definition bob_agent : Agent :=
  {| agent_keys := [ {| Blob := Demo.bob_pub; Comment := "bob" |} ];
     agent_list_err := None |}.

Definition empty_agent : Agent :=
  {| agent_keys := []; agent_list_err := None |}.

Definition world_bob_agent : World := with_agent (Some bob_agent) Demo.world.
Definition world_empty_agent : World := with_agent (Some empty_agent) Demo.world.

End AgentCases.

Definition prompt_events (path : string) : list Event :=
  [ EvStdout ("Enter passphrase for '" +:+ path +:+ "': ");
    EvReadPassword;
    EvStdout newline ].

Module FaultCases.

Definition with_faults (f : Op -> option error) (room : string -> option nat)
  (w : World) : World :=
  {| fs := fs w; cwd := cwd w; umask := umask w; tmpdir := tmpdir w;
     tmp_random := tmp_random w; os_fault := f; disk_room := room;
     agent := agent w; stdin_password := stdin_password w; trace := trace w |}.

Definition read_only_home (op : Op) : option error :=
  match op with
  | OpOpenWrite p =>
      if String.eqb p Demo.home_config then Some "permission denied" else None
  | _ => None
  end.

Definition full_disk (p : string) : option nat :=
  if String.eqb p Demo.home_config then Some 7%nat else None.

Definition no_temp (op : Op) : option error :=
  match op with
  | OpTempFile => Some "no space left on device"
  | _ => None
  end.

Definition read_only_tmp (op : Op) : option error :=
  match op with
  | OpOpenWrite p =>
      if String.eqb p Demo.temp_name then Some "read-only file system" else None
  | _ => None
  end.

Definition world_read_only_home : World :=
  with_faults read_only_home (fun _ => None) Demo.world.
Definition world_full_disk : World :=
  with_faults Demo.no_fault full_disk Demo.world.
Definition world_no_temp : World :=
  with_faults no_temp (fun _ => None) Demo.world.
Definition world_read_only_tmp : World :=
  with_faults read_only_tmp (fun _ => None) Demo.world.

End FaultCases.

(** ** The steps of the command

    The parts of [RunE], named: what runs inside the session, between the
    connection and its deferred close. *)

Section Steps.

Variable E : Env.

(** The address the session is opened to: [fmt.Sprintf("%s:%d", ip, port)]. *)
Definition address_of (fl : Flags) : string :=
  ip fl +:+ ":" +:+ pretty (ssh_port fl).

(** The installer, unless it is skipped. *)
Definition install_step (fl : Flags) : M (option error) :=
  if negb (skip_install fl) then
    fmt_Printf ("ssh: " +:+ installK3scommand E fl +:+ newline);;
    do res <- operator_Execute E (installK3scommand E fl);
    match res with
    | Err err => ret (Some (command_error err))
    | Ok res => print_result res;; ret None
    end
  else ret None.

(** The rewrite, the merge if asked for, and the write of the destination. *)
Definition persist_step (fl : Flags) (res : CommandResult) : M (option error) :=
  do absPath <- filepath_Abs (local_path fl);
  let kubeconfig := rewriteLoopback (StdOut res) (ip fl) in
  do merged <-
    (if merge fl then mergeConfigs E absPath kubeconfig
     else ret (Ok kubeconfig));
  match merged with
  | Err err => ret (Some err)
  | Ok kubeconfig =>
      do writeErr <- writeConfig absPath kubeconfig false;
      match writeErr with
      | Some e => ret (Some e)
      | None => ret None
      end
  end.

(** The retrieval of the remote kubeconfig, and what follows it. *)
Definition retrieve_step (fl : Flags) : M (option error) :=
  fmt_Printf ("ssh: " +:+ getConfigcommand +:+ newline);;
  do res <- operator_Execute E getConfigcommand;
  match res with
  | Err err => ret (Some (command_error err))
  | Ok res => print_result res;; persist_step fl res
  end.

Definition session_body (fl : Flags) : M (option error) :=
  do installErr <- install_step fl;
  match installErr with
  | Some e => ret (Some e)
  | None => retrieve_step fl
  end.

(** The two lines [RunE] prints before it loads the key. *)
Definition announced (fl : Flags) (w : World) : World :=
  add_event (EvStdout ("ssh -i " +:+ expandPath E (ssh_key fl) +:+ " "
                       +:+ user fl +:+ "@" +:+ ip fl +:+ newline))
    (add_event (EvStdout ("Public IP: " +:+ ip fl +:+ newline)) w).

(** The commands the session carries before the retrieval. *)
Definition install_commands (fl : Flags) : list string :=
  if skip_install fl then [] else [installK3scommand E fl].

End Steps.

(** The events of the remote session. *)
Definition is_session (ev : Event) : bool :=
  match ev with
  | EvSSHDial _ | EvSSHExec _ | EvSSHClose => true
  | _ => false
  end.

Fixpoint session (tr : list Event) : list Event :=
  match tr with
  | [] => []
  | ev :: tr' => if is_session ev then ev :: session tr' else session tr'
  end.

Module RemoteCases.

(** [Demo.env] with another remote host. *)
Definition with_remote (hs : string -> ClientConfig -> option error)
  (run : list string -> string -> result CommandResult) : Env :=
  {| ssh_ParsePrivateKey := ssh_ParsePrivateKey Demo.env;
     ssh_ParsePrivateKeyWithPassphrase := ssh_ParsePrivateKeyWithPassphrase Demo.env;
     ssh_ParseAuthorizedKey := ssh_ParseAuthorizedKey Demo.env;
     ssh_handshake := hs;
     remote_run := run;
     kubectl_config_view := kubectl_config_view Demo.env;
     homedir_Expand := homedir_Expand Demo.env;
     strings_TrimSpace := strings_TrimSpace Demo.env;
     fmt_q := fmt_q Demo.env |}.

Definition env_refused : Env :=
  with_remote (fun _ _ => Some "connection refused") (remote_run Demo.env).

Definition env_install_fails : Env :=
  with_remote (fun _ _ => None)
    (fun _ command =>
       if String.eqb command getConfigcommand
       then Ok {| StdOut := Demo.k3s_yaml; StdErr := [] |}
       else Err "Process exited with status 1").

Definition env_retrieval_fails : Env :=
  with_remote (fun _ _ => None)
    (fun _ command =>
       if String.eqb command getConfigcommand
       then Err "Process exited with status 1"
       else Ok {| StdOut := Demo.bytes "k3s installed"; StdErr := [] |}).

Definition flags_install : Flags :=
  {| ip := "203.0.113.5"; user := "root";
     ssh_key := "/home/alice/.ssh/id_rsa"; ssh_port := 22;
     skip_install := false; local_path := "kubeconfig";
     k3s_extra_args := ""; merge := false; k3s_version := "v0.8.1" |}.

Definition flags_locked : Flags :=
  {| ip := "203.0.113.5"; user := "root";
     ssh_key := "/home/alice/.ssh/id_locked"; ssh_port := 22;
     skip_install := true; local_path := "kubeconfig";
     k3s_extra_args := ""; merge := false; k3s_version := "v0.8.1" |}.

End RemoteCases.

(** The bytes that occur in a loopback pattern. *)
Definition pattern_bytes : list ascii :=
  list_ascii_of_string "localhost" ++ list_ascii_of_string "127.0.0.1".

(** * Theorems *)

(** ** Frame properties of the operating system calls *)

Lemma prefix_empty (s : string) : String.prefix "" s = true.
Proof. destruct s; reflexivity. Qed.

Lemma split_slash_cons (s : string) : exists x xs, split_slash s = x :: xs.
Proof.
  destruct s as [|c s]; [now exists "", []|].
  cbn [split_slash]. destruct (Ascii.eqb c "/"); [now eexists _, _|].
  destruct (split_slash s); now eexists _, _.
Qed.

Lemma split_slash_no_slash (s : string) :
  List.Forall (fun e => no_slash e = true) (split_slash s).
Proof.
  induction s as [|c s IH]; [now repeat constructor|].
  cbn [split_slash]. destruct (Ascii.eqb c "/") eqn:Hc.
  - now constructor.
  - destruct (split_slash s) as [|x xs]; [constructor; [|constructor]|].
    + cbn [no_slash]. now rewrite Hc.
    + inversion IH as [|? ? Hx Hxs]; subst. constructor; [|exact Hxs].
      cbn [no_slash]. now rewrite Hc, Hx.
Qed.

Lemma split_slash_one (e : string) : no_slash e = true -> split_slash e = [e].
Proof.
  induction e as [|c e IH]; [reflexivity|].
  cbn [no_slash split_slash]. intros [Hc He]%andb_prop.
  apply negb_true_iff in Hc. now rewrite Hc, (IH He).
Qed.

Lemma split_slash_app (e r : string) :
  no_slash e = true -> split_slash (e +:+ "/" +:+ r) = e :: split_slash r.
Proof.
  induction e as [|c e IH]; [reflexivity|].
  cbn [no_slash]. intros [Hc He]%andb_prop. apply negb_true_iff in Hc.
  change (String c e +:+ "/" +:+ r) with (String c (e +:+ "/" +:+ r)).
  cbn [split_slash]. now rewrite Hc, (IH He).
Qed.

Lemma split_join_slash (elems : list string) :
  List.Forall (fun e => no_slash e = true) elems -> elems <> [] ->
  split_slash (join_slash elems) = elems.
Proof.
  induction elems as [|x xs IH]; [easy|].
  intros Hall _. inversion Hall as [|? ? Hx Hxs]; subst.
  cbn [join_slash]. destruct xs as [|y ys]; [now apply split_slash_one|].
  rewrite (split_slash_app _ _ Hx). f_equal. now apply IH.
Qed.

Lemma clean_step_plain (out : list string) (e : string) :
  plain e -> clean_step true out e = e :: out.
Proof.
  intros (_ & H1 & H2 & H3). unfold clean_step. now rewrite H1, H2, H3.
Qed.

Lemma clean_plain (elems out : list string) :
  List.Forall plain elems ->
  fold_left (clean_step true) elems out = rev elems ++ out.
Proof.
  revert out. induction elems as [|e elems IH]; intros out Hall; [reflexivity|].
  inversion Hall as [|? ? He Hes]; subst.
  cbn [fold_left rev]. rewrite (clean_step_plain _ _ He), (IH _ Hes).
  now rewrite <- app_assoc.
Qed.

Lemma clean_step_keeps_plain (out : list string) (e : string) :
  no_slash e = true -> List.Forall plain out ->
  List.Forall plain (clean_step true out e).
Proof.
  intros He Hout. unfold clean_step.
  destruct (String.eqb e "") eqn:H1; [exact Hout|].
  destruct (String.eqb e ".") eqn:H2; [exact Hout|]. cbn [orb].
  destruct (String.eqb e "..") eqn:H3.
  - destruct out as [|top rest]; [constructor|].
    inversion Hout as [|? ? Htop Hrest]; subst.
    destruct Htop as (_ & _ & _ & Htop). now rewrite Htop.
  - constructor; [|exact Hout]. now repeat split.
Qed.

Lemma clean_keeps_plain (elems out : list string) :
  List.Forall (fun e => no_slash e = true) elems -> List.Forall plain out ->
  List.Forall plain (fold_left (clean_step true) elems out).
Proof.
  revert out. induction elems as [|e elems IH]; intros out Hall Hout;
    [exact Hout|].
  inversion Hall as [|? ? He Hes]; subst. cbn [fold_left].
  apply IH; [exact Hes|]. now apply clean_step_keeps_plain.
Qed.

Lemma Forall_plain_rev (l : list string) :
  List.Forall plain l -> List.Forall plain (rev l).
Proof.
  intros H. apply List.Forall_forall. intros x Hx.
  apply List.in_rev in Hx. revert x Hx. now apply List.Forall_forall.
Qed.

(** A rooted path cleans to a separator followed by plain elements. *)
Lemma Clean_rooted (path : string) :
  is_abs path = true ->
  exists elems, filepath_Clean path = "/" +:+ join_slash elems
                /\ List.Forall plain elems.
Proof.
  intros Habs. unfold filepath_Clean. rewrite Habs.
  eexists. split; [reflexivity|].
  apply Forall_plain_rev, clean_keeps_plain;
    [apply split_slash_no_slash | constructor].
Qed.

Lemma Clean_plain (elems : list string) :
  List.Forall plain elems ->
  filepath_Clean ("/" +:+ join_slash elems) = "/" +:+ join_slash elems.
Proof.
  intros Hall. unfold filepath_Clean.
  change (is_abs ("/" +:+ join_slash elems)) with (String.prefix "" (join_slash elems)).
  rewrite prefix_empty.
  change (split_slash ("/" +:+ join_slash elems))
    with ("" :: split_slash (join_slash elems)).
  cbn [fold_left]. change (clean_step true [] "") with (@nil string).
  destruct elems as [|e elems]; [reflexivity|].
  rewrite split_join_slash; [|  |easy].
  - now rewrite (clean_plain _ _ Hall), app_nil_r, rev_involutive.
  - eapply List.Forall_impl; [|exact Hall]. now intros a [Ha _].
Qed.

Lemma Clean_is_abs (path : string) :
  is_abs path = true -> is_abs (filepath_Clean path) = true.
Proof.
  intros Habs. destruct (Clean_rooted _ Habs) as (elems & -> & _).
  apply prefix_empty.
Qed.

Lemma Clean_Clean (path : string) :
  is_abs path = true -> filepath_Clean (filepath_Clean path) = filepath_Clean path.
Proof.
  intros Habs. destruct (Clean_rooted _ Habs) as (elems & -> & Hall).
  now apply Clean_plain.
Qed.

Lemma resolve_arg_is_abs (w : World) (path : string) :
  is_abs (if is_abs path then path else "/" +:+ cwd w +:+ "/" +:+ path) = true.
Proof.
  destruct (is_abs path) eqn:Habs; [exact Habs|]. apply prefix_empty.
Qed.

Lemma resolve_is_abs (w : World) (path : string) : is_abs (resolve w path) = true.
Proof. apply Clean_is_abs, resolve_arg_is_abs. Qed.

Lemma resolve_resolve (w w' : World) (path : string) :
  resolve w' (resolve w path) = resolve w path.
Proof.
  unfold resolve at 1. rewrite resolve_is_abs.
  apply Clean_Clean, resolve_arg_is_abs.
Qed.

Lemma resolve_cwd (w w' : World) (path : string) :
  cwd w' = cwd w -> resolve w' path = resolve w path.
Proof. unfold resolve. now intros ->. Qed.

Example filepath_Clean_table :
  map filepath_Clean
    ["abc//def//ghi"; "abc/./def"; "abc/def/.."; "abc/def/../ghi/../jkl";
     "abc/def/ghi/../../../../jkl"; "../../abc"; "/abc/def/"; "//abc";
     "/../abc"; "/abc/def/../../.."; "/"; ""; "."; "abc/.."]
  = ["abc/def/ghi"; "abc/def"; "abc"; "abc/jkl";
     "../jkl"; "../../abc"; "/abc/def"; "/abc";
     "/abc"; "/"; "/"; "."; "."; "."].
Proof. vm_compute. reflexivity. Qed.

(** The same file under several spellings of its path. *)
Example resolve_spellings :
  map (resolve Demo.world)
    ["kubeconfig"; "./kubeconfig"; "../alice//kubeconfig";
     "/home/alice/./kubeconfig"; "/home/bob/../alice/kubeconfig/"]
  = ["/home/alice/kubeconfig"; "/home/alice/kubeconfig";
     "/home/alice/kubeconfig"; "/home/alice/kubeconfig";
     "/home/alice/kubeconfig"].
Proof. vm_compute. reflexivity. Qed.

Example filepath_Join_temp :
  map filepath_Join
    [["/tmp"; "k3s-temp-481"]; ["/tmp/"; "k3s-temp-481"];
     [""; "k3s-temp-481"]; ["tmp/./x"; "k3s-temp-481"]]
  = ["/tmp/k3s-temp-481"; "/tmp/k3s-temp-481"; "k3s-temp-481";
     "tmp/x/k3s-temp-481"].
Proof. vm_compute. reflexivity. Qed.

Lemma take_not_short {A} (n : nat) (l : list A) :
  (length (take n l) <? length l)%nat = false -> take n l = l.
Proof.
  intros H. apply Nat.ltb_ge in H. rewrite length_take in H.
  apply take_ge. lia.
Qed.

(** The bits left by the umask in a file created with 0600 never include a
    group or other bit. *)
Lemma created_mode_owner_only (u : Z) :
  Z.land (Z.ldiff perm_0600 u) perm_0077 = 0.
Proof.
  apply Z.bits_inj'. intros n Hn.
  rewrite Z.land_spec, Z.ldiff_spec, Z.bits_0.
  destruct (Z_lt_le_dec n 6) as [Hlt|Hge].
  - assert (Hcases : n = 0 \/ n = 1 \/ n = 2 \/ n = 3 \/ n = 4 \/ n = 5) by lia.
    destruct Hcases as [->|[->|[->|[->|[->| ->]]]]]; reflexivity.
  - replace (Z.testbit perm_0077 n) with false; [apply andb_false_r|].
    symmetry. apply Z.bits_above_log2; [unfold perm_0077; lia|].
    change (Z.log2 perm_0077) with 5. lia.
Qed.

Lemma executed_app (t1 t2 : list Event) :
  executed (t1 ++ t2) = executed t1 ++ executed t2.
Proof.
  induction t1 as [|ev t1 IH]; [reflexivity|].
  destruct ev; simpl; now rewrite ?IH.
Qed.

(** What a successful [writeConfig] leaves behind; the worlds differ in the
    file system and the trace only. *)
Lemma writeConfig_ok_inv (path : string) (data : list byte) (sm : bool)
  (w w' : World) :
  writeConfig path data sm w = (None, w') ->
  fs w' = <[ resolve w path :=
             {| f_mode := match fs w !! resolve w path with
                          | Some old => f_mode old
                          | None => Z.ldiff perm_0600 (umask w)
                          end;
                f_data := data |} ]> (fs w)
  /\ cwd w' = cwd w /\ os_fault w' = os_fault w
  /\ executed (trace w') = executed (trace w).
Proof.
  unfold writeConfig, bind, filepath_Abs, ioutil_WriteFile, ret.
  destruct sm; simpl; rewrite !resolve_resolve.
  - change (resolve (add_event _ w) path) with (resolve w path).
    destruct (os_fault w (OpOpenWrite (resolve w path))); [discriminate|].
    destruct (disk_room w (resolve w path)) as [n|]; simpl.
    + destruct (length (take n data) <? length data)%nat eqn:Hshort;
        [discriminate|].
      intros [= <-]. simpl. now rewrite (take_not_short _ _ Hshort).
    + rewrite Nat.ltb_irrefl. now intros [= <-].
  - destruct (os_fault w (OpOpenWrite (resolve w path))); [discriminate|].
    destruct (disk_room w (resolve w path)) as [n|]; simpl.
    + destruct (length (take n data) <? length data)%nat eqn:Hshort;
        [discriminate|].
      intros [= <-]. simpl. rewrite (take_not_short _ _ Hshort), executed_app.
      simpl. now rewrite app_nil_r.
    + rewrite Nat.ltb_irrefl. intros [= <-]. simpl. rewrite executed_app.
      simpl. now rewrite app_nil_r.
Qed.

Lemma first_free_fresh (w : World) (dir pfx : string) (rs : list string)
  (name : string) :
  first_free w dir pfx rs = Some name -> fs w !! resolve w name = None.
Proof.
  induction rs as [|r rs IH]; [discriminate|].
  cbn [first_free].
  destruct (fs w !! resolve w (filepath_Join [dir; pfx +:+ r])) eqn:Hr;
    [exact IH|].
  now intros [= <-].
Qed.

Lemma TempFile_ok_fresh (dir pfx name : string) (w w1 : World) :
  ioutil_TempFile dir pfx w = (Ok name, w1) ->
  fs w !! resolve w name = None
  /\ w1 = set_fs (insert (resolve w name)
                    {| f_mode := Z.ldiff perm_0600 (umask w); f_data := [] |}) w.
Proof.
  unfold ioutil_TempFile.
  destruct (os_fault w OpTempFile); [discriminate|].
  destruct (first_free w _ _ _) as [n|] eqn:Hfree; [|discriminate].
  intros [= <- <-]. split; [|reflexivity].
  eapply first_free_fresh, Hfree.
Qed.

Lemma os_Remove_ok_inv (name : string) (w : World) :
  fst (os_Remove name w) = None ->
  fs (snd (os_Remove name w)) = delete (resolve w name) (fs w)
  /\ cwd (snd (os_Remove name w)) = cwd w
  /\ trace (snd (os_Remove name w)) = trace w.
Proof.
  unfold os_Remove.
  destruct (os_fault w (OpRemove (resolve w name))); [discriminate|].
  destruct (fs w !! resolve w name); [|discriminate].
  intros _. repeat split.
Qed.

Lemma file_reader_ext (w w' : World) :
  fs w' = fs w -> cwd w' = cwd w -> file_reader w' = file_reader w.
Proof. unfold file_reader, resolve. now intros -> ->. Qed.

Lemma TempFile_ok_inv (dir pfx name : string) (w w1 : World) :
  ioutil_TempFile dir pfx w = (Ok name, w1) ->
  cwd w1 = cwd w /\ os_fault w1 = os_fault w /\ umask w1 = umask w.
Proof.
  unfold ioutil_TempFile.
  destruct (os_fault w OpTempFile); [discriminate|].
  destruct (first_free w _ _ _); [|discriminate].
  now intros [= _ <-].
Qed.

(** ** Persistence *)

(** C6, as the code has it: after a [writeConfig] that returned no error the
    destination holds exactly the bytes passed in, whole.  Its permission is
    0600 less the umask when the call created the file, which leaves no group
    or other bit, and is the permission the file already had when it existed
    before. *)
Theorem writeConfig_persists (path : string) (data : list byte) (sm : bool)
  (w w' : World) :
  writeConfig path data sm w = (None, w') ->
  exists f, fs w' !! resolve w path = Some f
    /\ f_data f = data
    /\ f_mode f = match fs w !! resolve w path with
                  | Some old => f_mode old
                  | None => Z.ldiff perm_0600 (umask w)
                  end
    /\ (fs w !! resolve w path = None -> Z.land (f_mode f) perm_0077 = 0).
Proof.
  intros Hrun. destruct (writeConfig_ok_inv _ _ _ _ _ Hrun) as (Hfs & _ & _ & _).
  eexists. rewrite Hfs, lookup_insert_eq. split; [reflexivity|].
  simpl. split; [reflexivity|]. split; [reflexivity|].
  intros ->. apply created_mode_owner_only.
Qed.

Lemma writeConfig_persists_witness :
  exists f,
    fs (snd (writeConfig "kubeconfig" Demo.k3s_yaml false Demo.world))
      !! resolve Demo.world "kubeconfig" = Some f
    /\ f_data f = Demo.k3s_yaml
    /\ f_mode f = match fs Demo.world !! resolve Demo.world "kubeconfig" with
                  | Some old => f_mode old
                  | None => Z.ldiff perm_0600 (umask Demo.world)
                  end
    /\ (fs Demo.world !! resolve Demo.world "kubeconfig" = None ->
        Z.land (f_mode f) perm_0077 = 0).
Proof.
  apply (writeConfig_persists "kubeconfig" Demo.k3s_yaml false Demo.world).
  vm_compute. reflexivity.
Defined.

(** C6, as stated, fails on a destination that exists with mode 0644: the
    call returns no error and the file is still 0644. *)
Lemma writeConfig_existing_keeps_mode :
  fst (writeConfig Demo.home_config Demo.k3s_yaml false Demo.world) = None
  /\ ~ persisted_owner_only Demo.home_config Demo.k3s_yaml Demo.world
         (snd (writeConfig Demo.home_config Demo.k3s_yaml false Demo.world)).
Proof.
  split; [vm_compute; reflexivity|].
  intros (f & Hf & Hmode & _).
  vm_compute in Hf. injection Hf as <-. vm_compute in Hmode. discriminate.
Qed.

(** A destination spelled with a [.] element is the file of the clean path:
    the message names it, and the file that was there is truncated and keeps
    its mode. *)
Example writeConfig_unclean_path :
  let r := writeConfig "./kubeconfig" Demo.k3s_yaml false Demo.world in
  fst r = None
  /\ events_since Demo.world (snd r)
     = [EvStdout ("Saving file to: /home/alice/kubeconfig" +:+ newline)]
  /\ fs (snd r) !! "/home/alice/kubeconfig"
     = Some {| f_mode := perm_0644; f_data := Demo.k3s_yaml |}
  /\ fs (snd r) !! "/home/alice/./kubeconfig" = None.
Proof. vm_compute. repeat split. Qed.

(** ** Merging *)

Lemma os_Remove_add_event (name : string) (ev : Event) (w : World) :
  os_Remove name (add_event ev w)
  = (fst (os_Remove name w), add_event ev (snd (os_Remove name w))).
Proof.
  unfold os_Remove.
  change (resolve (add_event ev w) name) with (resolve w name).
  change (os_fault (add_event ev w)) with (os_fault w).
  change (fs (add_event ev w)) with (fs w).
  destruct (os_fault w (OpRemove (resolve w name))); [reflexivity|].
  destruct (fs w !! resolve w name); reflexivity.
Qed.

(** [mergeConfigs] up to the call of the merge tool, when the temporary file
    was created and written. *)
Lemma mergeConfigs_until_kubectl (E : Env) (path : string) (doc : list byte)
  (w w1 w2 : World) (name : string) :
  ioutil_TempFile (tmpdir w) "k3s-temp-" w = (Ok name, w1) ->
  writeConfig name doc true w1 = (None, w2) ->
  let env := "KUBECONFIG=" +:+ path +:+ ":" +:+ name in
  let w3 := add_event (EvKubectl env)
              (add_event (EvStdout ("Merging with existing kubeconfig at "
                                    +:+ path +:+ newline)) w2) in
  mergeConfigs E path doc w =
    match kubectl_config_view E (file_reader w2) env with
    | Err e => (Err (fmt_Errorf "Could not merge kubeconfigs: " e),
                add_event (EvFileClose name) w3)
    | Ok data =>
        match fst (os_Remove name w3) with
        | Some e =>
            (Err (errors_Wrapf e
               ("Could not remove temporary kubeconfig file: " +:+ name)),
             add_event (EvFileClose name) (snd (os_Remove name w3)))
        | None => (Ok data, add_event (EvFileClose name) (snd (os_Remove name w3)))
        end
    end.
Proof.
  intros Htmp Hwrite env w3.
  unfold mergeConfigs, bind, os_TempDir. rewrite Htmp.
  unfold defer, bind. rewrite Hwrite.
  unfold fmt_Printf, exec_kubectl, emit, bind, ret.
  change (file_reader (add_event _ (add_event _ w2))) with (file_reader w2).
  fold env. fold w3.
  destruct (kubectl_config_view E (file_reader w2) env); [|reflexivity].
  destruct (os_Remove name w3) as [[e|] w4]; reflexivity.
Qed.

(** C4, where the code departs from it: whenever the temporary file was
    created and written and the merge tool fails, [mergeConfigs] returns the
    tool's error and the temporary file, holding the new document, is still
    in the file system. *)
Theorem mergeConfigs_tool_failure_leaves_temp (E : Env) (path : string)
  (doc : list byte) (w w1 w2 : World) (name : string) (e : error) :
  ioutil_TempFile (tmpdir w) "k3s-temp-" w = (Ok name, w1) ->
  writeConfig name doc true w1 = (None, w2) ->
  kubectl_config_view E (file_reader w2)
    ("KUBECONFIG=" +:+ path +:+ ":" +:+ name) = Err e ->
  fst (mergeConfigs E path doc w)
    = Err (fmt_Errorf "Could not merge kubeconfigs: " e)
  /\ f_data <$> fs (snd (mergeConfigs E path doc w)) !! resolve w name
     = Some doc.
Proof.
  intros Htmp Hwrite Htool.
  rewrite (mergeConfigs_until_kubectl E path doc w w1 w2 name Htmp Hwrite).
  cbv zeta. rewrite Htool. split; [reflexivity|]. simpl.
  destruct (writeConfig_ok_inv _ _ _ _ _ Hwrite) as (-> & _ & _ & _).
  destruct (TempFile_ok_inv _ _ _ _ _ Htmp) as (Hcwd & _ & _).
  rewrite (resolve_cwd w w1 name Hcwd), lookup_insert_eq. reflexivity.
Qed.

Lemma mergeConfigs_tool_failure_leaves_temp_witness :
  fst (mergeConfigs Demo.env_kubectl_fails Demo.home_config Demo.k3s_yaml Demo.world)
    = Err (fmt_Errorf "Could not merge kubeconfigs: " "exit status 1")
  /\ f_data <$> fs (snd (mergeConfigs Demo.env_kubectl_fails Demo.home_config
                           Demo.k3s_yaml Demo.world))
                  !! resolve Demo.world Demo.temp_name
     = Some Demo.k3s_yaml.
Proof.
  apply (mergeConfigs_tool_failure_leaves_temp Demo.env_kubectl_fails
           Demo.home_config Demo.k3s_yaml Demo.world
           (snd (ioutil_TempFile "/tmp" "k3s-temp-" Demo.world))
           (snd (writeConfig Demo.temp_name Demo.k3s_yaml true
                   (snd (ioutil_TempFile "/tmp" "k3s-temp-" Demo.world))))
           Demo.temp_name "exit status 1").
  - vm_compute. reflexivity.
  - vm_compute. reflexivity.
  - reflexivity.
Defined.

(** C5, as the code has it: when the merge tool has succeeded and the removal
    of the temporary file fails, [mergeConfigs] returns no bytes and the
    removal error, wrapped with the name of the temporary file. *)
Theorem mergeConfigs_remove_failure_returned (E : Env) (path : string)
  (doc : list byte) (w w1 w2 : World) (name : string) (data : list byte)
  (e : error) :
  ioutil_TempFile (tmpdir w) "k3s-temp-" w = (Ok name, w1) ->
  writeConfig name doc true w1 = (None, w2) ->
  kubectl_config_view E (file_reader w2)
    ("KUBECONFIG=" +:+ path +:+ ":" +:+ name) = Ok data ->
  fst (os_Remove name w2) = Some e ->
  fst (mergeConfigs E path doc w)
    = Err (errors_Wrapf e
             ("Could not remove temporary kubeconfig file: " +:+ name)).
Proof.
  intros Htmp Hwrite Htool Hremove.
  rewrite (mergeConfigs_until_kubectl E path doc w w1 w2 name Htmp Hwrite).
  cbv zeta. rewrite Htool, !os_Remove_add_event. simpl.
  now rewrite Hremove.
Qed.

Lemma mergeConfigs_remove_failure_returned_witness :
  fst (mergeConfigs Demo.env Demo.home_config Demo.k3s_yaml Demo.world_remove_fails)
    = Err (errors_Wrapf "operation not permitted"
             ("Could not remove temporary kubeconfig file: " +:+ Demo.temp_name)).
Proof.
  apply (mergeConfigs_remove_failure_returned Demo.env
           Demo.home_config Demo.k3s_yaml Demo.world_remove_fails
           (snd (ioutil_TempFile "/tmp" "k3s-temp-" Demo.world_remove_fails))
           (snd (writeConfig Demo.temp_name Demo.k3s_yaml true
                   (snd (ioutil_TempFile "/tmp" "k3s-temp-" Demo.world_remove_fails))))
           Demo.temp_name (Demo.old_config ++ Demo.bytes "---" ++ Demo.k3s_yaml)).
  - vm_compute. reflexivity.
  - vm_compute. reflexivity.
  - vm_compute. reflexivity.
  - reflexivity.
Defined.

(** C5, as stated, fails: with a merge tool that succeeds and a removal that
    is refused, the merged bytes are not returned. *)
Lemma mergeConfigs_remove_failure_not_ignored :
  ~ remove_failure_ignored Demo.env Demo.home_config Demo.k3s_yaml
      Demo.world_remove_fails.
Proof.
  intros Hclaim.
  specialize (Hclaim Demo.temp_name
    (snd (ioutil_TempFile "/tmp" "k3s-temp-" Demo.world_remove_fails))
    (snd (writeConfig Demo.temp_name Demo.k3s_yaml true
            (snd (ioutil_TempFile "/tmp" "k3s-temp-" Demo.world_remove_fails))))
    (Demo.old_config ++ Demo.bytes "---" ++ Demo.k3s_yaml)
    "operation not permitted").
  assert (Hret : fst (mergeConfigs Demo.env Demo.home_config Demo.k3s_yaml
                        Demo.world_remove_fails)
                 = Ok (Demo.old_config ++ Demo.bytes "---" ++ Demo.k3s_yaml)).
  { apply Hclaim; vm_compute; reflexivity. }
  vm_compute in Hret. discriminate.
Qed.

(** ** Credential resolution *)

Lemma ReadFile_world (path : string) (w : World) :
  ioutil_ReadFile path w = (fst (ioutil_ReadFile path w), w).
Proof.
  unfold ioutil_ReadFile.
  destruct (os_fault w _); [reflexivity|].
  destruct (fs w !! _); reflexivity.
Qed.

Lemma ReadFile_add_event (path : string) (ev : Event) (w : World) :
  fst (ioutil_ReadFile path (add_event ev w)) = fst (ioutil_ReadFile path w).
Proof.
  unfold ioutil_ReadFile.
  change (resolve (add_event ev w) path) with (resolve w path).
  change (os_fault (add_event ev w)) with (os_fault w).
  change (fs (add_event ev w)) with (fs w).
  destruct (os_fault w _); [reflexivity|].
  destruct (fs w !! _); reflexivity.
Qed.

Lemma bytes_Equal_eq (a b : list byte) : bytes_Equal a b = true <-> a = b.
Proof.
  revert b. induction a as [|x a IH]; intros [|y b]; simpl; try easy.
  rewrite andb_true_iff, IH. split.
  - intros [Hxy ->]. now rewrite (Byte.byte_dec_bl _ _ Hxy).
  - intros [= -> ->]. split; [now apply Byte.byte_dec_lb | reflexivity].
Qed.

Lemma some_key_matches_iff (keys : list AgentKey) (parsedkey : list byte) :
  some_key_matches keys parsedkey = true
  <-> exists key, In key keys /\ Blob key = parsedkey.
Proof.
  induction keys as [|k keys IH]; simpl.
  - split; [discriminate | now intros (? & [] & _)].
  - destruct (bytes_Equal (Blob k) parsedkey) eqn:Heq.
    + apply bytes_Equal_eq in Heq. split; [|reflexivity]. eauto.
    + rewrite IH. split.
      * intros (key & Hin & Hb). eauto.
      * intros (key & [<-|Hin] & Hb); [|eauto].
        apply bytes_Equal_eq in Hb. congruence.
Qed.

(** [sshAgent] dials the agent, once, and has no other effect on the world. *)
Lemma sshAgent_world (E : Env) (publicKeyPath : string) (w : World) :
  sshAgent E publicKeyPath w
  = (fst (sshAgent E publicKeyPath w), add_event EvAgentDial w).
Proof.
  unfold sshAgent, net_Dial_SSH_AUTH_SOCK, bind, emit, ret.
  change (agent (add_event EvAgentDial w)) with (agent w).
  destruct (agent w) as [a|]; [|reflexivity].
  destruct (length (fst (agent_List a)) =? 0)%nat; [reflexivity|].
  rewrite ReadFile_world.
  destruct (fst (ioutil_ReadFile publicKeyPath (add_event EvAgentDial w)));
    [|reflexivity].
  destruct (ssh_ParseAuthorizedKey E a0); [|reflexivity].
  destruct (some_key_matches _ _); reflexivity.
Qed.

(** [loadPublickey] on a key that the parser reports as encrypted. *)
Lemma loadPublickey_encrypted (E : Env) (path : string) (w : World)
  (key : list byte) :
  fst (ioutil_ReadFile path w) = Ok key ->
  ssh_ParsePrivateKey E key = Err encrypted_key_message ->
  loadPublickey E path w =
    let w1 := add_event EvAgentDial w in
    match fst (sshAgent E (path +:+ ".pub") w) with
    | (Some a, close) => ((Some a, close, None), w1)
    | (None, close) =>
        let w2 := snd (run_close close (prompted path w1)) in
        match ssh_ParsePrivateKeyWithPassphrase E key (fst (stdin_password w)) with
        | Err err => ((None, noopCloseFunc, Some err), w2)
        | Ok signer => ((Some (PublicKeys [signer]), noopCloseFunc, None), w2)
        end
    end.
Proof.
  intros Hread Hparse.
  unfold loadPublickey, bind. rewrite ReadFile_world, Hread, Hparse.
  change (negb (encrypted_key_message =? encrypted_key_message)%string) with false.
  cbv iota. unfold bind. rewrite sshAgent_world.
  destruct (fst (sshAgent E (path +:+ ".pub") w)) as [[a|] close]; [reflexivity|].
  unfold defer, bind, fmt_Printf, fmt_Println, terminal_ReadPassword, emit, bind, ret.
  cbv zeta.
  change (stdin_password (add_event _ (add_event _ (add_event _ w))))
    with (stdin_password w).
  destruct (stdin_password w) as [bytePassword readErr]. fold (prompted path (add_event EvAgentDial w)).
  simpl fst.
  destruct (ssh_ParsePrivateKeyWithPassphrase E key bytePassword);
    destruct (run_close close _); destruct u; reflexivity.
Qed.

Lemma events_since_refl (w : World) : events_since w w = [].
Proof. unfold events_since. apply drop_all. Qed.

Lemma events_since_app (w w' : World) (evs : list Event) :
  trace w' = trace w ++ evs -> events_since w w' = evs.
Proof. unfold events_since. intros ->. apply drop_app_length. Qed.

Lemma loadPublickey_parsed (E : Env) (path : string) (w : World)
  (key : list byte) (signer : Signer) :
  fst (ioutil_ReadFile path w) = Ok key ->
  ssh_ParsePrivateKey E key = Ok signer ->
  loadPublickey E path w
  = ((Some (PublicKeys [signer]), noopCloseFunc, None), w).
Proof.
  intros Hread Hparse.
  unfold loadPublickey, bind. now rewrite ReadFile_world, Hread, Hparse.
Qed.

Lemma loadPublickey_fatal_parse (E : Env) (path : string) (w : World)
  (key : list byte) (err : error) :
  fst (ioutil_ReadFile path w) = Ok key ->
  ssh_ParsePrivateKey E key = Err err ->
  err <> encrypted_key_message ->
  loadPublickey E path w = ((None, noopCloseFunc, Some err), w).
Proof.
  intros Hread Hparse Hne. unfold loadPublickey, bind.
  rewrite ReadFile_world, Hread, Hparse.
  apply String.eqb_neq in Hne. now rewrite Hne.
Qed.

Lemma loadPublickey_read_error (E : Env) (path : string) (w : World) (e : error) :
  fst (ioutil_ReadFile path w) = Err e ->
  loadPublickey E path w = ((None, noopCloseFunc, Some e), w).
Proof.
  intros Hread. unfold loadPublickey, bind. now rewrite ReadFile_world, Hread.
Qed.

(** C7: a key file that parses as an unencrypted private key resolves to an
    authentication method and no error, and the world is left as it was:
    nothing is written to the terminal and the agent socket is not dialed. *)
Theorem loadPublickey_plain_key (E : Env) (path : string) (w : World)
  (key : list byte) (signer : Signer) :
  fst (ioutil_ReadFile path w) = Ok key ->
  ssh_ParsePrivateKey E key = Ok signer ->
  fst (loadPublickey E path w) = (Some (PublicKeys [signer]), noopCloseFunc, None)
  /\ snd (loadPublickey E path w) = w
  /\ events_since w (snd (loadPublickey E path w)) = [].
Proof.
  intros Hread Hparse.
  rewrite (loadPublickey_parsed E path w key signer Hread Hparse).
  repeat split. apply events_since_refl.
Qed.

Lemma loadPublickey_plain_key_witness :
  fst (loadPublickey Demo.env "/home/alice/.ssh/id_rsa" Demo.world)
    = (Some (PublicKeys [ {| signer_key := Demo.alice_pub |} ]), noopCloseFunc, None)
  /\ snd (loadPublickey Demo.env "/home/alice/.ssh/id_rsa" Demo.world) = Demo.world
  /\ events_since Demo.world
       (snd (loadPublickey Demo.env "/home/alice/.ssh/id_rsa" Demo.world)) = [].
Proof.
  apply (loadPublickey_plain_key Demo.env "/home/alice/.ssh/id_rsa" Demo.world
           Demo.plain_key).
  - vm_compute. reflexivity.
  - vm_compute. reflexivity.
Defined.

Lemma trace_run_close (c : CloseFunc) (w : World) :
  exists evs, trace (snd (run_close c w)) = trace w ++ evs.
Proof.
  destruct c; simpl.
  - exists []. now rewrite app_nil_r.
  - now exists [EvAgentClose].
Qed.

(** C1: when the key file is read and does not parse as an unencrypted key,
    the agent socket is dialed if and only if the parse error is the message
    of an encrypted key; with any other error [loadPublickey] returns that
    error and leaves the world as it was, so that no dial and no prompt took
    place. *)
Theorem loadPublickey_parse_error (E : Env) (path : string) (w : World)
  (key : list byte) (err : error) :
  fst (ioutil_ReadFile path w) = Ok key ->
  ssh_ParsePrivateKey E key = Err err ->
  (In EvAgentDial (events_since w (snd (loadPublickey E path w)))
   <-> err = encrypted_key_message)
  /\ (err <> encrypted_key_message ->
      loadPublickey E path w = ((None, noopCloseFunc, Some err), w)
      /\ events_since w (snd (loadPublickey E path w)) = []).
Proof.
  intros Hread Hparse.
  assert (Hother : err <> encrypted_key_message ->
                   loadPublickey E path w = ((None, noopCloseFunc, Some err), w)).
  { now apply (loadPublickey_fatal_parse E path w key). }
  split;
    [|intros Hne; rewrite (Hother Hne); split;
      [reflexivity | apply events_since_refl]].
  split.
  - intros Hdial. destruct (String.string_dec err encrypted_key_message) as [|Hne];
      [assumption|].
    rewrite (Hother Hne) in Hdial. simpl in Hdial.
    now rewrite events_since_refl in Hdial.
  - intros ->. rewrite (loadPublickey_encrypted E path w key Hread Hparse).
    cbv zeta.
    destruct (fst (sshAgent E (path +:+ ".pub") w)) as [[a|] close].
    + simpl. erewrite events_since_app by reflexivity. apply in_eq.
    + destruct (trace_run_close close (prompted path (add_event EvAgentDial w)))
        as [evs Hevs].
      assert (Hin : In EvAgentDial
                (events_since w (snd (run_close close
                                        (prompted path (add_event EvAgentDial w)))))).
      { erewrite events_since_app; [apply in_eq|].
        rewrite Hevs. simpl. rewrite <- !app_assoc. reflexivity. }
      destruct (ssh_ParsePrivateKeyWithPassphrase E key _); exact Hin.
Qed.

Lemma loadPublickey_parse_error_witness :
  (In EvAgentDial
     (events_since Demo.world
        (snd (loadPublickey Demo.env "/home/alice/.ssh/id_locked" Demo.world)))
   <-> encrypted_key_message = encrypted_key_message)
  /\ (encrypted_key_message <> encrypted_key_message ->
      loadPublickey Demo.env "/home/alice/.ssh/id_locked" Demo.world
      = ((None, noopCloseFunc, Some encrypted_key_message), Demo.world)
      /\ events_since Demo.world
           (snd (loadPublickey Demo.env "/home/alice/.ssh/id_locked" Demo.world))
         = []).
Proof.
  apply (loadPublickey_parse_error Demo.env "/home/alice/.ssh/id_locked"
           Demo.world Demo.locked_key encrypted_key_message).
  - vm_compute. reflexivity.
  - vm_compute. reflexivity.
Defined.

(** A file that is no key at all: the parse error comes back, nothing else
    happens. *)
Example loadPublickey_not_a_key :
  loadPublickey Demo.env "/home/alice/.ssh/notes" Demo.world
  = ((None, noopCloseFunc, Some "ssh: no key found"), Demo.world).
Proof. vm_compute. reflexivity. Qed.

(** An encrypted key without a usable agent: one prompt, then the decryption
    error. *)
Example loadPublickey_locked_no_agent :
  let r := loadPublickey Demo.env "/home/alice/.ssh/id_locked"
             Demo.world_remove_fails in
  fst r = (None, noopCloseFunc, Some "x509: decryption password incorrect")
  /\ events_since Demo.world_remove_fails (snd r)
     = [ EvAgentDial;
         EvStdout "Enter passphrase for '/home/alice/.ssh/id_locked': ";
         EvReadPassword;
         EvStdout newline ].
Proof. vm_compute. split; reflexivity. Qed.

(** C9: on the passphrase path the error of [terminal.ReadPassword] plays no
    part.  Decryption is attempted with the bytes that were read, whatever
    the read reported, and the error returned, if any, is the one of the
    decryption. *)
Theorem loadPublickey_passphrase_read_error_discarded (E : Env) (path : string)
  (w : World) (key bytePassword : list byte) (readErr : option error) :
  fst (ioutil_ReadFile path w) = Ok key ->
  ssh_ParsePrivateKey E key = Err encrypted_key_message ->
  fst (fst (sshAgent E (path +:+ ".pub") w)) = None ->
  stdin_password w = (bytePassword, readErr) ->
  fst (loadPublickey E path w) =
    match ssh_ParsePrivateKeyWithPassphrase E key bytePassword with
    | Err err => (None, noopCloseFunc, Some err)
    | Ok signer => (Some (PublicKeys [signer]), noopCloseFunc, None)
    end.
Proof.
  intros Hread Hparse Hagent Hstdin.
  rewrite (loadPublickey_encrypted E path w key Hread Hparse). cbv zeta.
  destruct (fst (sshAgent E (path +:+ ".pub") w)) as [a close].
  simpl in Hagent. subst a. rewrite Hstdin. simpl fst.
  destruct (ssh_ParsePrivateKeyWithPassphrase E key bytePassword); reflexivity.
Qed.

Lemma loadPublickey_passphrase_read_error_discarded_witness :
  fst (loadPublickey Demo.env "/home/alice/.ssh/id_locked" Demo.world_remove_fails)
  = match ssh_ParsePrivateKeyWithPassphrase Demo.env Demo.locked_key [] with
    | Err err => (None, noopCloseFunc, Some err)
    | Ok signer => (Some (PublicKeys [signer]), noopCloseFunc, None)
    end.
Proof.
  apply (loadPublickey_passphrase_read_error_discarded Demo.env
           "/home/alice/.ssh/id_locked" Demo.world_remove_fails Demo.locked_key
           [] (Some "inappropriate ioctl for device")).
  - vm_compute. reflexivity.
  - vm_compute. reflexivity.
  - vm_compute. reflexivity.
  - reflexivity.
Defined.

(** C10: when the agent is reachable and one of the keys it lists has the
    blob of the local public key, [sshAgent] returns the callback over the
    agent's [Signers] method: the method offers a signer for every key of the
    agent, the matching one and the others alike. *)
Theorem sshAgent_offers_all_signers (E : Env) (publicKeyPath : string)
  (w : World) (a : Agent) (pubkey parsedkey : list byte) :
  agent w = Some a ->
  fst (ioutil_ReadFile publicKeyPath w) = Ok pubkey ->
  ssh_ParseAuthorizedKey E pubkey = Ok parsedkey ->
  (exists key, In key (fst (agent_List a)) /\ Blob key = parsedkey) ->
  fst (sshAgent E publicKeyPath w)
    = (Some (PublicKeysCallback (agent_Signers a)), sshAgentConn_Close)
  /\ offered (PublicKeysCallback (agent_Signers a))
     = map (fun k => {| signer_key := Blob k |}) (agent_keys a).
Proof.
  intros Hagent Hread Hparse Hmatch. split.
  - unfold sshAgent, net_Dial_SSH_AUTH_SOCK, bind, emit, ret.
    change (agent (add_event EvAgentDial w)) with (agent w). rewrite Hagent.
    destruct (length (fst (agent_List a)) =? 0)%nat eqn:Hlen.
    + apply Nat.eqb_eq in Hlen. destruct Hmatch as (key & Hin & _).
      destruct (fst (agent_List a)); [destruct Hin | discriminate].
    + rewrite ReadFile_world, ReadFile_add_event, Hread, Hparse.
      apply some_key_matches_iff in Hmatch. now rewrite Hmatch.
  - unfold offered, agent_Signers. unfold agent_List in *.
    destruct (agent_list_err a); [|reflexivity].
    destruct Hmatch as (key & [] & _).
Qed.

Lemma sshAgent_offers_all_signers_witness :
  fst (sshAgent Demo.env "/home/alice/.ssh/id_locked.pub" Demo.world)
    = (Some (PublicKeysCallback (agent_Signers Demo.the_agent)), sshAgentConn_Close)
  /\ offered (PublicKeysCallback (agent_Signers Demo.the_agent))
     = map (fun k => {| signer_key := Blob k |}) (agent_keys Demo.the_agent).
Proof.
  apply (sshAgent_offers_all_signers Demo.env "/home/alice/.ssh/id_locked.pub"
           Demo.world Demo.the_agent Demo.alice_pub Demo.alice_pub).
  - reflexivity.
  - vm_compute. reflexivity.
  - vm_compute. reflexivity.
  - exists {| Blob := Demo.alice_pub; Comment := "alice" |}.
    split; [right; left; reflexivity | reflexivity].
Defined.

(** C2: when the key file cannot be read, [loadPublickey] returns the read
    error with the world untouched, and the command returns that error,
    wrapped, after its two lines of output: the agent socket and the remote
    host are not dialed and the terminal is not read. *)
Theorem RunE_key_read_failure (E : Env) (fl : Flags) (w : World) (e : error) :
  fst (ioutil_ReadFile (expandPath E (ssh_key fl)) w) = Err e ->
  (forall w0, fst (ioutil_ReadFile (expandPath E (ssh_key fl)) w0) = Err e ->
     loadPublickey E (expandPath E (ssh_key fl)) w0
     = ((None, noopCloseFunc, Some e), w0))
  /\ fst (RunE E fl w)
     = Some (errors_Wrapf e ("unable to load the ssh key with path "
                             +:+ fmt_q E (expandPath E (ssh_key fl))))
  /\ events_since w (snd (RunE E fl w))
     = [ EvStdout ("Public IP: " +:+ ip fl +:+ newline);
         EvStdout ("ssh -i " +:+ expandPath E (ssh_key fl) +:+ " " +:+ user fl
                   +:+ "@" +:+ ip fl +:+ newline) ]
  /\ existsb is_dial (events_since w (snd (RunE E fl w))) = false
  /\ existsb is_prompt (events_since w (snd (RunE E fl w))) = false.
Proof.
  intros Hread.
  split; [intros w0 H0; now apply loadPublickey_read_error|].
  assert (Hrun : RunE E fl w =
            (Some (errors_Wrapf e ("unable to load the ssh key with path "
                                   +:+ fmt_q E (expandPath E (ssh_key fl)))),
             add_event (EvStdout ("ssh -i " +:+ expandPath E (ssh_key fl) +:+ " "
                                  +:+ user fl +:+ "@" +:+ ip fl +:+ newline))
               (add_event (EvStdout ("Public IP: " +:+ ip fl +:+ newline)) w))).
  { unfold RunE, bind, fmt_Println, fmt_Printf, emit. cbv zeta.
    rewrite (loadPublickey_read_error E _ _ e);
      [reflexivity | now rewrite !ReadFile_add_event]. }
  rewrite Hrun. simpl fst. simpl snd.
  erewrite events_since_app;
    [repeat split; reflexivity | simpl; now rewrite <- app_assoc].
Qed.

Lemma RunE_key_read_failure_witness :
  let E := Demo.env in
  let fl := Demo.flags_missing_key in
  let w := Demo.world in
  let e := "open /home/alice/.ssh/missing: no such file or directory" in
  (forall w0, fst (ioutil_ReadFile (expandPath E (ssh_key fl)) w0) = Err e ->
     loadPublickey E (expandPath E (ssh_key fl)) w0
     = ((None, noopCloseFunc, Some e), w0))
  /\ fst (RunE E fl w)
     = Some (errors_Wrapf e ("unable to load the ssh key with path "
                             +:+ fmt_q E (expandPath E (ssh_key fl))))
  /\ events_since w (snd (RunE E fl w))
     = [ EvStdout ("Public IP: " +:+ ip fl +:+ newline);
         EvStdout ("ssh -i " +:+ expandPath E (ssh_key fl) +:+ " " +:+ user fl
                   +:+ "@" +:+ ip fl +:+ newline) ]
  /\ existsb is_dial (events_since w (snd (RunE E fl w))) = false
  /\ existsb is_prompt (events_since w (snd (RunE E fl w))) = false.
Proof.
  apply (RunE_key_read_failure Demo.env Demo.flags_missing_key Demo.world
           "open /home/alice/.ssh/missing: no such file or directory").
  vm_compute. reflexivity.
Defined.

(** ** The loopback rewrite *)

Lemma string_app_length (a b : string) :
  String.length (a +:+ b) = (String.length a + String.length b)%nat.
Proof. induction a as [|c a IH]; simpl; [reflexivity | now rewrite IH]. Qed.

Lemma string_app_cons (c : ascii) (a b : string) :
  String c a +:+ b = String c (a +:+ b).
Proof. reflexivity. Qed.

Lemma string_app_assoc (a b c : string) : (a +:+ b) +:+ c = a +:+ b +:+ c.
Proof.
  induction a as [|x a IH]; [reflexivity|].
  now rewrite !string_app_cons, IH.
Qed.

Lemma prefix_split (p s : string) :
  String.prefix p s = true <-> exists r, s = p +:+ r.
Proof.
  revert s. induction p as [|c p IH]; intros s.
  - rewrite prefix_empty. split; [now exists s | reflexivity].
  - destruct s as [|d s]; simpl.
    + split; [discriminate | now intros [r Hr]].
    + destruct (ascii_dec c d) as [->|Hne].
      * rewrite IH. split; intros [r Hr]; exists r;
          rewrite string_app_cons in *; congruence.
      * split; [discriminate|].
        intros [r Hr]. rewrite string_app_cons in Hr. congruence.
Qed.

Lemma list_byte_of_string_length (s : string) :
  length (list_byte_of_string s) = String.length s.
Proof.
  unfold list_byte_of_string. rewrite length_map.
  induction s as [|c s IH]; simpl; [reflexivity | now rewrite IH].
Qed.

Lemma string_of_list_byte_length (l : list byte) :
  String.length (string_of_list_byte l) = length l.
Proof.
  rewrite <- (list_byte_of_string_of_list_byte l) at 2.
  now rewrite list_byte_of_string_length.
Qed.

(** The scan passes over a matched old string and resumes behind it. *)
Lemma Replace_from_skip (oldnew : list (string * string)) (q r : string) :
  Replace_from oldnew (String.length q) (q +:+ r) = Replace_from oldnew 0 r.
Proof. induction q as [|c q IH]; simpl; [reflexivity | exact IH]. Qed.

Lemma Replace_from_match (oldnew : list (string * string)) (old new r : string) :
  old <> "" ->
  replacer_lookup oldnew (old +:+ r) = Some (old, new) ->
  Replace_from oldnew 0 (old +:+ r) = new +:+ Replace_from oldnew 0 r.
Proof.
  intros Hne Hlook. destruct old as [|c old]; [congruence|].
  change (String c old +:+ r) with (String c (old +:+ r)) in *.
  simpl Replace_from. rewrite Hlook. simpl Nat.pred.
  now rewrite Replace_from_skip.
Qed.

Lemma Replace_from_copy (oldnew : list (string * string)) (c : ascii) (s : string) :
  replacer_lookup oldnew (String c s) = None ->
  Replace_from oldnew 0 (String c s) = String c (Replace_from oldnew 0 s).
Proof. intros Hlook. simpl. now rewrite Hlook. Qed.

(** What the lookup of the loopback replacer finds at the head of [s]. *)
Lemma loopback_lookup (addr s : string) :
  (exists p r, In p loopback_patterns /\ s = p +:+ r
               /\ replacer_lookup (loopback_replacer addr) s = Some (p, addr))
  \/ (replacer_lookup (loopback_replacer addr) s = None
      /\ forall p, In p loopback_patterns -> String.prefix p s = false).
Proof.
  unfold loopback_replacer, replacer_lookup, loopback_patterns.
  destruct (String.prefix "localhost" s) eqn:H1.
  - left. apply prefix_split in H1 as [r Hr].
    exists "localhost", r. simpl. auto.
  - destruct (String.prefix "127.0.0.1" s) eqn:H2.
    + left. apply prefix_split in H2 as [r Hr].
      exists "127.0.0.1", r. simpl. auto.
    + right. split; [reflexivity|].
      intros p [<-|[<-|[]]]; assumption.
Qed.

Lemma pattern_length (p : string) :
  In p loopback_patterns -> String.length p = 9%nat.
Proof. intros [<-|[<-|[]]]; reflexivity. Qed.

Lemma occurs_at_head (p s : string) :
  occurs_at p s 0 -> String.prefix p s = true.
Proof.
  intros (a & b & -> & Ha). destruct a; [|discriminate].
  apply prefix_split. now exists b.
Qed.

Lemma occurs_at_tail (p : string) (c : ascii) (s : string) (j : nat) :
  occurs_at p (String c s) (S j) -> occurs_at p s j.
Proof.
  intros (a & b & Heq & Ha). destruct a as [|d a]; [discriminate|].
  simpl in Heq, Ha. injection Heq as _ ->. injection Ha as Ha.
  now exists a, b.
Qed.

Lemma occurs_at_behind (p q r : string) (j : nat) :
  occurs_at p (q +:+ r) (String.length q + j) -> occurs_at p r j.
Proof.
  induction q as [|c q IH]; simpl; [trivial|].
  intros H. apply IH. now apply occurs_at_tail in H.
Qed.

Lemma occurs_at_nonempty (p s : string) (j : nat) :
  In p loopback_patterns -> occurs_at p s j -> s <> "".
Proof.
  intros Hp (a & b & -> & _) Hnil.
  apply (f_equal String.length) in Hnil.
  rewrite !string_app_length, (pattern_length p Hp) in Hnil. simpl in Hnil. lia.
Qed.

Example rewriteLoopback_k3s_yaml :
  rewriteLoopback Demo.k3s_yaml "203.0.113.5"
  = Demo.bytes "server: https://203.0.113.5:6443".
Proof. vm_compute. reflexivity. Qed.

Example rewriteLoopback_both_forms :
  rewriteLoopback (Demo.bytes "a localhost b 127.0.0.1 c localhost") "10.0.0.7"
  = Demo.bytes "a 10.0.0.7 b 10.0.0.7 c 10.0.0.7".
Proof. vm_compute. reflexivity. Qed.

(** The scan, from offset [k]: its output is the document with the sites it
    chose replaced, and an occurrence it did not replace starts inside an
    occurrence it replaced further left. *)
Lemma Replace_scan (addr : string) (n : nat) :
  forall (doc : string) (k : nat),
    (String.length doc <= n)%nat ->
    exists sites,
      Subst addr k doc (Replace_from (loopback_replacer addr) 0 doc) sites
      /\ (forall p j, In p loopback_patterns -> occurs_at p doc j ->
            In (k + j)%nat sites
            \/ exists i, In i sites /\ (i < k + j < i + 9)%nat)
      /\ (String.length (Replace_from (loopback_replacer addr) 0 doc)
          + 9 * length sites
          = String.length doc + String.length addr * length sites)%nat.
Proof.
  induction n as [|n IH]; intros doc k Hlen.
  - destruct doc as [|c s]; [|simpl in Hlen; lia].
    exists []. split; [constructor|]. split; [|simpl; lia].
    intros p j Hp Hoc. now destruct (occurs_at_nonempty p "" j Hp Hoc).
  - destruct doc as [|c s].
    { exists []. split; [constructor|]. split; [|simpl; lia].
      intros p j Hp Hoc. now destruct (occurs_at_nonempty p "" j Hp Hoc). }
    destruct (loopback_lookup addr (String c s))
      as [(p & r & Hp & Heq & Hlook)|[Hlook Hnone]].
    + pose proof (pattern_length p Hp) as Hp9.
      rewrite Heq in *. clear Heq.
      rewrite string_app_length, Hp9 in Hlen.
      destruct (IH r (k + 9)%nat ltac:(lia)) as (sites & HS & Hocc & Hl).
      rewrite (Replace_from_match _ p addr r); [|intros ->; discriminate|exact Hlook].
      exists (k :: sites). split; [|split].
      * apply Subst_replace; [exact Hp | now rewrite Hp9].
      * intros q j Hq Hoc.
        destruct (le_lt_dec 9 j) as [Hge|Hlt].
        -- replace j with (String.length p + (j - 9))%nat in Hoc by lia.
           apply occurs_at_behind in Hoc.
           destruct (Hocc q (j - 9)%nat Hq Hoc) as [Hin|(i & Hin & Hi)].
           ++ left. right. now replace (k + j)%nat with (k + 9 + (j - 9))%nat by lia.
           ++ right. exists i. split; [now right | lia].
        -- destruct j as [|j].
           ++ left. left. lia.
           ++ right. exists k. split; [now left | lia].
      * rewrite !string_app_length, Hp9. simpl length.
        rewrite Nat.mul_succ_r. lia.
    + rewrite (Replace_from_copy _ c s Hlook).
      simpl in Hlen.
      destruct (IH s (S k) ltac:(lia)) as (sites & HS & Hocc & Hl).
      exists sites. split; [|split].
      * now apply Subst_copy.
      * intros q j Hq Hoc. destruct j as [|j].
        -- apply occurs_at_head in Hoc. rewrite (Hnone q Hq) in Hoc. discriminate.
        -- apply occurs_at_tail in Hoc.
           destruct (Hocc q j Hq Hoc) as [Hin|(i & Hin & Hi)].
           ++ left. now replace (k + S j)%nat with (S k + j)%nat by lia.
           ++ right. exists i. split; [exact Hin | lia].
      * simpl String.length. lia.
Qed.

Lemma occurs_at_cons (p : string) (c : ascii) (s : string) (j : nat) :
  occurs_at p s j -> occurs_at p (String c s) (S j).
Proof.
  intros (a & b & -> & <-). exists (String c a), b. split; reflexivity.
Qed.

Lemma lookup_pattern (addr p x : string) :
  In p loopback_patterns ->
  replacer_lookup (loopback_replacer addr) (p +:+ x) = Some (p, addr).
Proof.
  assert (Hpre : forall q, String.prefix q (q +:+ x) = true)
    by (intros q; apply prefix_split; now exists x).
  intros [<-|[<-|[]]]; unfold loopback_replacer, replacer_lookup.
  - now rewrite Hpre.
  - change (String.prefix "localhost" ("127.0.0.1" +:+ x)) with false.
    cbv iota. now rewrite Hpre.
Qed.

Lemma occurs_at_ahead (p q r : string) (j : nat) :
  occurs_at p r j -> occurs_at p (q +:+ r) (String.length q + j).
Proof.
  intros (a & b & -> & <-). exists (q +:+ a), b.
  now rewrite string_app_assoc, string_app_length.
Qed.

(** The byte at offset [k] of an occurrence. *)
Lemma occurs_at_get (p s : string) (j k : nat) :
  occurs_at p s j -> (k < String.length p)%nat ->
  String.get (j + k) s = String.get k p.
Proof.
  intros (a & b & -> & <-) Hk.
  rewrite (Nat.add_comm (String.length a) k), <- append_correct2.
  symmetry. now apply append_correct1.
Qed.

Lemma overlap_get (q p s : string) (i d k : nat) :
  occurs_at q s i -> occurs_at p s (i + d) ->
  (d + k < String.length q)%nat -> (k < String.length p)%nat ->
  String.get k p = String.get (d + k) q.
Proof.
  intros Hq Hp Hdk Hk.
  rewrite <- (occurs_at_get p s (i + d) k Hp Hk).
  rewrite <- (occurs_at_get q s i (d + k) Hq Hdk).
  f_equal. lia.
Qed.

(** Two occurrences overlap in one way only: [127.0.0.1] beginning on the
    last byte of [127.0.0.1]. *)
Lemma overlap_shape (q p s : string) (i j : nat) :
  In q loopback_patterns -> In p loopback_patterns ->
  occurs_at q s i -> occurs_at p s j -> (i < j < i + 9)%nat ->
  q = "127.0.0.1" /\ p = "127.0.0.1" /\ j = (i + 8)%nat.
Proof.
  intros Hq Hp Hoq Hop Hij.
  assert (Hd : exists d, j = (i + d)%nat /\ (1 <= d <= 8)%nat)
    by (exists (j - i)%nat; lia).
  destruct Hd as (d & -> & Hd).
  pose proof (fun k => overlap_get q p s i d k Hoq Hop) as Hget.
  rewrite (pattern_length q Hq), (pattern_length p Hp) in Hget.
  assert (Hcases : (d = 1 \/ d = 2 \/ d = 3 \/ d = 4 \/ d = 5 \/ d = 6
                    \/ d = 7 \/ d = 8)%nat) by lia.
  destruct Hq as [<-|[<-|[]]], Hp as [<-|[<-|[]]];
    destruct Hcases as [->|[->|[->|[->|[->|[->|[->| ->]]]]]]];
    first [ now pose proof (Hget 0%nat ltac:(lia) ltac:(lia))
          | now pose proof (Hget 1%nat ltac:(lia) ltac:(lia)) ].
Qed.

(** The sites of a substitution are occurrences of a pattern. *)
Lemma Subst_sites_occur (addr : string) (k : nat) (doc out : string)
  (sites : list nat) :
  Subst addr k doc out sites ->
  forall i, In i sites ->
    exists p j, In p loopback_patterns /\ i = (k + j)%nat /\ occurs_at p doc j.
Proof.
  induction 1 as [k|k c s o sites _ IH|k p s o sites Hp _ IH]; intros i Hin.
  - destruct Hin.
  - destruct (IH i Hin) as (p & j & Hp & -> & Hoc).
    exists p, (S j). repeat split; [exact Hp | lia | now apply occurs_at_cons].
  - destruct Hin as [<-|Hin].
    + exists p, 0%nat. repeat split; [exact Hp | lia |].
      exists "", s. split; reflexivity.
    + destruct (IH i Hin) as (q & j & Hq & -> & Hoc).
      exists q, (String.length p + j)%nat.
      repeat split; [exact Hq | lia | now apply occurs_at_ahead].
Qed.

(** Sites of a substitution never lie before its starting offset. *)
Lemma Subst_sites_from (addr : string) (k : nat) (doc out : string)
  (sites : list nat) :
  Subst addr k doc out sites -> Forall (fun i => (k <= i)%nat) sites.
Proof.
  induction 1 as [k|k c s o sites _ IH|k p s o sites Hp _ IH].
  - constructor.
  - eapply Forall_impl; [exact IH|]. simpl. intros; lia.
  - constructor; [lia|]. eapply Forall_impl; [exact IH|]. simpl. intros; lia.
Qed.

(** Two sites of a substitution lie a whole pattern apart. *)
Lemma Subst_sites_apart (addr : string) (k : nat) (doc out : string)
  (sites : list nat) :
  Subst addr k doc out sites ->
  forall i j, In i sites -> In j sites -> (i < j)%nat -> (i + 9 <= j)%nat.
Proof.
  induction 1 as [k|k c s o sites _ IH|k p s o sites Hp HS IH]; intros i j Hi Hj Hij.
  - destruct Hi.
  - now apply IH.
  - apply Subst_sites_from in HS. rewrite List.Forall_forall in HS.
    rewrite (pattern_length p Hp) in HS.
    destruct Hi as [<-|Hi], Hj as [<-|Hj].
    + lia.
    + specialize (HS _ Hj). lia.
    + specialize (HS _ Hi). lia.
    + now apply IH.
Qed.

(** A substitution that replaces every occurrence is the one of the scan. *)
Lemma Subst_all_is_scan (addr : string) (k : nat) (doc out : string)
  (sites : list nat) :
  Subst addr k doc out sites ->
  (forall p j, In p loopback_patterns -> occurs_at p doc j ->
     In (k + j)%nat sites) ->
  out = Replace_from (loopback_replacer addr) 0 doc.
Proof.
  induction 1 as [k|k c s o sites HS IH|k p s o sites Hp HS IH]; intros Hall.
  - reflexivity.
  - destruct (loopback_lookup addr (String c s))
      as [(p & r & Hp & Heq & _)|[Hlook _]].
    + apply Subst_sites_from in HS. rewrite List.Forall_forall in HS.
      assert (Hoc : occurs_at p (String c s) 0)
        by (exists "", r; split; [exact Heq | reflexivity]).
      specialize (HS _ (Hall p 0%nat Hp Hoc)). lia.
    + rewrite (Replace_from_copy _ c s Hlook). f_equal. apply IH.
      intros p j Hp Hoc. apply occurs_at_cons with (c := c) in Hoc.
      specialize (Hall p (S j) Hp Hoc).
      now replace (S k + j)%nat with (k + S j)%nat by lia.
  - rewrite (Replace_from_match _ p addr s);
      [|intros ->; destruct Hp as [Hp|[Hp|[]]]; discriminate
       |now apply lookup_pattern].
    f_equal. apply IH. intros q j Hq Hoc.
    apply occurs_at_ahead with (q := p) in Hoc.
    pose proof (pattern_length p Hp) as Hp9.
    destruct (Hall q _ Hq Hoc) as [Heq|Hin]; [lia|].
    now replace (k + String.length p + j)%nat
      with (k + (String.length p + j))%nat by lia.
Qed.

(** C3: the rewritten document is the retrieved one with the occurrences of
    [localhost] and [127.0.0.1] at [sites] replaced by the address and every
    other byte copied.  Every occurrence of [localhost] is replaced.  Every
    occurrence of [127.0.0.1] is replaced, all of them and not the first one
    only; the one exception is an occurrence that begins on the last byte of
    an occurrence that is replaced, the only way in which two occurrences can
    share a byte, and no substitution replaces both of those: whenever some
    substitution of the document replaces every occurrence, its result is the
    rewritten document and the rewrite replaced every occurrence as well.
    The lengths differ by the number of substitutions times the difference
    between the address and the nine bytes of a pattern. *)
Theorem rewriteLoopback_replaces_occurrences (doc : list byte) (addr : string) :
  exists sites,
    Subst addr 0 (string_of_list_byte doc)
      (string_of_list_byte (rewriteLoopback doc addr)) sites
    /\ (forall j, occurs_at "localhost" (string_of_list_byte doc) j -> In j sites)
    /\ (forall j, occurs_at "127.0.0.1" (string_of_list_byte doc) j ->
          In j sites
          \/ exists i, In i sites /\ j = (i + 8)%nat
                       /\ occurs_at "127.0.0.1" (string_of_list_byte doc) i)
    /\ (forall out' sites',
          Subst addr 0 (string_of_list_byte doc) out' sites' ->
          (forall p j, In p loopback_patterns ->
             occurs_at p (string_of_list_byte doc) j -> In j sites') ->
          out' = string_of_list_byte (rewriteLoopback doc addr)
          /\ forall p j, In p loopback_patterns ->
               occurs_at p (string_of_list_byte doc) j -> In j sites)
    /\ (length (rewriteLoopback doc addr) + 9 * length sites
        = length doc + String.length addr * length sites)%nat.
Proof.
  unfold rewriteLoopback, strings_Replace.
  destruct (Replace_scan addr (String.length (string_of_list_byte doc))
              (string_of_list_byte doc) 0%nat (le_n _))
    as (sites & HS & Hocc & Hl).
  set (s := string_of_list_byte doc) in *.
  assert (Hshape : forall p j, In p loopback_patterns -> occurs_at p s j ->
            In j sites
            \/ exists i, In i sites /\ j = (i + 8)%nat /\ p = "127.0.0.1"
                         /\ occurs_at "127.0.0.1" s i).
  { intros p j Hp Hoc.
    destruct (Hocc p j Hp Hoc) as [Hin|(i & Hin & Hij)]; [now left|].
    right. exists i.
    destruct (Subst_sites_occur _ _ _ _ _ HS i Hin) as (q & i' & Hq & -> & Hoq).
    destruct (overlap_shape q p s _ j Hq Hp Hoq Hoc Hij) as (-> & -> & ->).
    repeat split; [exact Hin | exact Hoq]. }
  exists sites. rewrite string_of_list_byte_of_string.
  split; [exact HS|]. split; [|split; [|split]].
  - intros j Hoc.
    destruct (Hshape "localhost" j ltac:(now left) Hoc)
      as [Hin|(i & _ & _ & Heq & _)]; [exact Hin | discriminate].
  - intros j Hoc.
    destruct (Hshape "127.0.0.1" j ltac:(right; now left) Hoc)
      as [Hin|(i & Hin & -> & _ & Hoi)]; [now left|].
    right. now exists i.
  - intros out' sites' HS' Hall. split.
    + apply (Subst_all_is_scan _ _ _ _ _ HS'). exact Hall.
    + intros p j Hp Hoc.
      destruct (Hshape p j Hp Hoc) as [Hin|(i & Hin & -> & -> & Hoi)];
        [exact Hin|].
      pose proof (Subst_sites_apart _ _ _ _ _ HS' i (i + 8)%nat
                    (Hall _ _ Hp Hoi) (Hall _ _ Hp Hoc) ltac:(lia)).
      lia.
  - now rewrite list_byte_of_string_length, <- (string_of_list_byte_length doc).
Qed.

(** Where two occurrences share a byte the left one is replaced:
    [127.0.0.127.0.0.1] holds [127.0.0.1] at offsets 0 and 8. *)
Example rewriteLoopback_shared_byte :
  rewriteLoopback (Demo.bytes "127.0.0.127.0.0.1") "203.0.113.5"
  = Demo.bytes "203.0.113.527.0.0.1".
Proof. vm_compute. reflexivity. Qed.

(** ** The command *)

Lemma quiet_refl (w : World) : quiet w w.
Proof. repeat split. Qed.

Lemma quiet_trans (w1 w2 w3 : World) : quiet w1 w2 -> quiet w2 w3 -> quiet w1 w3.
Proof.
  unfold quiet. intros (?&?&?&?&?&?&?&?) (?&?&?&?&?&?&?&?).
  repeat split; congruence.
Qed.

Lemma quiet_add_event (ev : Event) (w : World) :
  executed [ev] = [] -> quiet w (add_event ev w).
Proof.
  intros Hev. repeat split. simpl. rewrite executed_app, Hev. apply app_nil_r.
Qed.

Lemma quiet_run_close (c : CloseFunc) (w : World) : quiet w (snd (run_close c w)).
Proof. destruct c; [apply quiet_refl | now apply quiet_add_event]. Qed.

Lemma quiet_loadPublickey (E : Env) (path : string) (w : World) :
  quiet w (snd (loadPublickey E path w)).
Proof.
  destruct (fst (ioutil_ReadFile path w)) as [key|e] eqn:Hread.
  - destruct (ssh_ParsePrivateKey E key) as [signer|err] eqn:Hparse.
    + rewrite (loadPublickey_parsed E path w key signer Hread Hparse).
      apply quiet_refl.
    + destruct (String.string_dec err encrypted_key_message) as [->|Hne].
      * rewrite (loadPublickey_encrypted E path w key Hread Hparse). cbv zeta.
        assert (Hdial : quiet w (add_event EvAgentDial w))
          by now apply quiet_add_event.
        destruct (fst (sshAgent E (path +:+ ".pub") w)) as [[a|] close];
          [exact Hdial|].
        assert (Hq : quiet w (snd (run_close close
                                     (prompted path (add_event EvAgentDial w))))).
        { eapply quiet_trans; [exact Hdial|].
          eapply quiet_trans; [|apply quiet_run_close].
          unfold prompted.
          do 3 (eapply quiet_trans; [|now apply quiet_add_event]).
          apply quiet_refl. }
        destruct (ssh_ParsePrivateKeyWithPassphrase E key _); exact Hq.
      * rewrite (loadPublickey_fatal_parse E path w key err Hread Hparse Hne).
        apply quiet_refl.
  - rewrite (loadPublickey_read_error E path w e Hread). apply quiet_refl.
Qed.

(** A successful [mergeConfigs]: the merge tool ran on the files of the
    start and a fresh temporary file holding the new document, and the file
    system is afterwards as it was at the start. *)
Lemma mergeConfigs_ok_inv (E : Env) (path : string) (doc : list byte)
  (w w' : World) (data : list byte) :
  mergeConfigs E path doc w = (Ok data, w') ->
  exists name,
    fs w !! resolve w name = None
    /\ kubectl_config_view E (file_reader (with_temp_file name doc w))
         ("KUBECONFIG=" +:+ path +:+ ":" +:+ name) = Ok data
    /\ fs w' = fs w /\ cwd w' = cwd w
    /\ executed (trace w') = executed (trace w).
Proof.
  intros Hrun.
  destruct (ioutil_TempFile (tmpdir w) "k3s-temp-" w) as [[name|e] w1] eqn:Htmp;
    [|unfold mergeConfigs, bind, os_TempDir in Hrun; rewrite Htmp in Hrun;
      discriminate].
  destruct (writeConfig name doc true w1) as [[e|] w2] eqn:Hwrite;
    [unfold mergeConfigs, bind, os_TempDir in Hrun; rewrite Htmp in Hrun;
     unfold defer, bind in Hrun; rewrite Hwrite in Hrun; discriminate|].
  rewrite (mergeConfigs_until_kubectl E path doc w w1 w2 name Htmp Hwrite) in Hrun.
  cbv zeta in Hrun.
  destruct (TempFile_ok_fresh _ _ _ _ _ Htmp) as (Hfresh & ->).
  destruct (writeConfig_ok_inv _ _ _ _ _ Hwrite) as (Hfs2 & Hcwd2 & _ & Htr2).
  change (resolve (set_fs _ w) name) with (resolve w name) in Hfs2.
  change (fs (set_fs ?f w)) with (f (fs w)) in Hfs2.
  rewrite lookup_insert_eq, insert_insert_eq in Hfs2. simpl f_mode in Hfs2.
  change (cwd (set_fs _ w)) with (cwd w) in Hcwd2.
  change (trace (set_fs _ w)) with (trace w) in Htr2.
  assert (Hreader : file_reader w2 = file_reader (with_temp_file name doc w))
    by (apply file_reader_ext; assumption).
  rewrite Hreader in Hrun.
  destruct (kubectl_config_view E _ _) as [merged|e] eqn:Htool; [|discriminate].
  rewrite !os_Remove_add_event in Hrun. simpl fst in Hrun. simpl snd in Hrun.
  destruct (fst (os_Remove name w2)) eqn:Hrm; [discriminate|].
  injection Hrun as <- <-.
  destruct (os_Remove_ok_inv name w2 Hrm) as (Hfs3 & Hcwd3 & Htr3).
  exists name. split; [exact Hfresh|]. split; [exact Htool|].
  simpl. rewrite Hfs3, Hcwd3, Htr3, Hfs2.
  rewrite (resolve_cwd w w2 name Hcwd2), (delete_insert_id _ _ _ Hfresh).
  repeat split; [assumption|].
  rewrite !executed_app, Htr2. simpl. now rewrite !app_nil_r.
Qed.

Lemma installer_is_not_retrieval (E : Env) (fl : Flags) :
  installK3scommand E fl <> getConfigcommand.
Proof. unfold installK3scommand, getConfigcommand. discriminate. Qed.

(** A successful run with [skip-install] and [merge]: the steps it went
    through. *)
Lemma RunE_skip_merge_inv (E : Env) (fl : Flags) (w wf : World) :
  skip_install fl = true ->
  merge fl = true ->
  RunE E fl w = (None, wf) ->
  exists res data w2 w3 w4 close,
    remote_run E (executed (trace w)) getConfigcommand = Ok res
    /\ fs w2 = fs w /\ cwd w2 = cwd w /\ umask w2 = umask w
    /\ executed (trace w2) = executed (trace w) ++ [getConfigcommand]
    /\ mergeConfigs E (resolve w (local_path fl))
         (rewriteLoopback (StdOut res) (ip fl)) w2 = (Ok data, w3)
    /\ writeConfig (resolve w (local_path fl)) data false w3 = (None, w4)
    /\ wf = snd (run_close close (add_event EvSSHClose w4)).
Proof.
  intros Hskip Hmerge Hrun.
  unfold RunE in Hrun. rewrite Hskip, Hmerge in Hrun.
  unfold bind, defer, fmt_Println, fmt_Printf, emit, ret, NewSSHOperator,
    operator_Execute, operator_Close, print_result, filepath_Abs in Hrun.
  cbv beta iota zeta in Hrun.
  destruct (loadPublickey E _ _) as [[[am close] err] w1] eqn:Hload.
  destruct err as [err|]; [discriminate|].
  assert (Hq : quiet w w1).
  { match type of Hload with
    | loadPublickey E ?p ?w0 = _ =>
        pose proof (quiet_loadPublickey E p w0) as Hq1
    end.
    rewrite Hload in Hq1. simpl snd in Hq1.
    eapply quiet_trans; [|exact Hq1].
    eapply quiet_trans; apply quiet_add_event; reflexivity. }
  destruct Hq as (Hfs & Hcwd & Humask & _ & _ & _ & _ & Hexec).
  unfold bind, emit, ret in Hrun.
  cbv beta iota zeta in Hrun.
  destruct (ssh_handshake E _ _) as [e|] eqn:Hhs.
  { destruct (run_close close _); discriminate. }
  change (negb true) with false in Hrun. cbv beta iota zeta in Hrun.
  match type of Hrun with
  | context [remote_run E ?h getConfigcommand] =>
      assert (Hh : h = executed (trace w))
  end.
  { simpl. rewrite !executed_app, Hexec. simpl. now rewrite !app_nil_r. }
  rewrite Hh in Hrun. clear Hh.
  destruct (remote_run E (executed (trace w)) getConfigcommand) as [res|e] eqn:Hres.
  2:{ destruct (run_close close _); discriminate. }
  unfold fmt_Printf, emit in Hrun. cbv beta iota zeta in Hrun.
  match type of Hrun with
  | context [mergeConfigs E (resolve ?w2 _) _ _] =>
      remember w2 as wm eqn:Hwm;
      assert (Hm : fs wm = fs w /\ cwd wm = cwd w /\ umask wm = umask w
                   /\ executed (trace wm) = executed (trace w) ++ [getConfigcommand])
  end.
  { subst wm. simpl. repeat split; try assumption.
    rewrite !executed_app, Hexec. simpl. now rewrite !app_nil_r. }
  clear Hwm. destruct Hm as (Hfsm & Hcwdm & Humaskm & Hexecm).
  rewrite (resolve_cwd w wm _ Hcwdm) in Hrun.
  destruct (mergeConfigs E _ _ wm) as [[data|e] w3] eqn:Hmerged.
  2:{ destruct (run_close close _); discriminate. }
  destruct (writeConfig _ data false w3) as [[e|] w4] eqn:Hwrite.
  { destruct (run_close close _); discriminate. }
  exists res, data, wm, w3, w4, close.
  repeat (split; [assumption || reflexivity|]).
  destruct (run_close close _) as [u wf'] eqn:Hclose.
  injection Hrun as <-. reflexivity.
Qed.

Lemma writeConfig_executed (path : string) (data : list byte) (sm : bool)
  (w : World) :
  executed (trace (snd (writeConfig path data sm w))) = executed (trace w).
Proof.
  unfold writeConfig, bind, filepath_Abs, ioutil_WriteFile, fmt_Printf, emit, ret.
  destruct sm; simpl.
  - destruct (os_fault w _); [reflexivity|].
    destruct (_ <? _)%nat; reflexivity.
  - change (os_fault (add_event _ w)) with (os_fault w).
    destruct (os_fault w _); simpl.
    + rewrite executed_app. simpl. apply app_nil_r.
    + destruct (_ <? _)%nat; simpl; rewrite executed_app; simpl; apply app_nil_r.
Qed.

Lemma os_Remove_trace (name : string) (w : World) :
  trace (snd (os_Remove name w)) = trace w.
Proof.
  unfold os_Remove. destruct (os_fault w _); [reflexivity|].
  destruct (fs w !! _); reflexivity.
Qed.

Lemma TempFile_trace (dir pfx : string) (w : World) :
  trace (snd (ioutil_TempFile dir pfx w)) = trace w.
Proof.
  unfold ioutil_TempFile. destruct (os_fault w _); [reflexivity|].
  destruct (first_free w _ _ _); reflexivity.
Qed.

Lemma mergeConfigs_executed (E : Env) (path : string) (doc : list byte)
  (w : World) :
  executed (trace (snd (mergeConfigs E path doc w))) = executed (trace w).
Proof.
  pose proof (TempFile_trace (tmpdir w) "k3s-temp-" w) as Htr1.
  destruct (ioutil_TempFile (tmpdir w) "k3s-temp-" w) as [[name|e] w1] eqn:Htmp;
    simpl in Htr1.
  - pose proof (writeConfig_executed name doc true w1) as Htr2.
    destruct (writeConfig name doc true w1) as [[e|] w2] eqn:Hwrite; simpl in Htr2.
    + unfold mergeConfigs, bind, os_TempDir. rewrite Htmp.
      unfold defer, bind. rewrite Hwrite. simpl.
      rewrite executed_app, Htr2, Htr1. simpl. apply app_nil_r.
    + rewrite (mergeConfigs_until_kubectl E path doc w w1 w2 name Htmp Hwrite).
      cbv zeta. destruct (kubectl_config_view E _ _).
      * destruct (fst (os_Remove name _)); simpl;
          rewrite os_Remove_trace; simpl;
          rewrite !executed_app, Htr2, Htr1; simpl; now rewrite !app_nil_r.
      * simpl. rewrite !executed_app, Htr2, Htr1. simpl. now rewrite !app_nil_r.
  - unfold mergeConfigs, bind, os_TempDir. rewrite Htmp. simpl. now rewrite Htr1.
Qed.

(** The deferred release of the agent adds no remote command. *)
Ltac after_close close :=
  destruct close; simpl; rewrite ?executed_app; simpl; rewrite ?app_nil_r.

(** With [skip-install] the session carries at most one command, the
    retrieval, however the run ends. *)
Lemma RunE_skip_install_commands (E : Env) (fl : Flags) (w : World) :
  skip_install fl = true ->
  executed (trace (snd (RunE E fl w))) = executed (trace w)
  \/ executed (trace (snd (RunE E fl w))) = executed (trace w) ++ [getConfigcommand].
Proof.
  intros Hskip.
  unfold RunE. rewrite Hskip.
  unfold bind, defer, fmt_Println, fmt_Printf, emit, ret, NewSSHOperator,
    operator_Execute, operator_Close, print_result, filepath_Abs.
  cbv beta iota zeta.
  match goal with
  | |- context [loadPublickey E ?p ?w0] =>
      pose proof (quiet_loadPublickey E p w0) as Hq1;
      destruct (loadPublickey E p w0) as [[[am close] err] w1] eqn:Hload
  end.
  simpl snd in Hq1.
  assert (Hexec : executed (trace w1) = executed (trace w)).
  { destruct Hq1 as (_&_&_&_&_&_&_&->). simpl.
    rewrite !executed_app. simpl. now rewrite !app_nil_r. }
  clear Hq1.
  destruct err as [err|].
  { left. exact Hexec. }
  unfold bind, emit, ret. cbv beta iota zeta.
  destruct (ssh_handshake E _ _) as [e|] eqn:Hhs.
  { left. now after_close close. }
  change (negb true) with false. cbv beta iota zeta.
  destruct (remote_run E _ getConfigcommand) as [res|e] eqn:Hres.
  2:{ right. after_close close; now rewrite Hexec. }
  unfold fmt_Printf, emit. cbv beta iota zeta.
  right.
  match goal with
  | |- context [resolve ?w2 (local_path fl)] => remember w2 as wm eqn:Hwm
  end.
  assert (Hm : executed (trace wm) = executed (trace w) ++ [getConfigcommand]).
  { subst wm. simpl. rewrite !executed_app, Hexec. simpl. now rewrite !app_nil_r. }
  clear Hwm.
  destruct (merge fl).
  - pose proof (mergeConfigs_executed E (resolve wm (local_path fl))
                  (rewriteLoopback (StdOut res) (ip fl)) wm) as Hmg.
    destruct (mergeConfigs E _ _ wm) as [[data|e] w3]; simpl in Hmg.
    + pose proof (writeConfig_executed (resolve wm (local_path fl)) data false w3)
        as Hwr.
      destruct (writeConfig _ data false w3) as [[e|] w4]; simpl in Hwr;
        after_close close; now rewrite Hwr, Hmg.
    + after_close close; now rewrite Hmg.
  - pose proof (writeConfig_executed (resolve wm (local_path fl))
                  (rewriteLoopback (StdOut res) (ip fl)) false wm) as Hwr.
    unfold ret. cbv beta iota zeta.
    destruct (writeConfig _ _ false wm) as [[e|] w4]; simpl in Hwr;
      after_close close; now rewrite Hwr.
Qed.

(** C8: with [skip-install] and [merge] set and a destination that exists,
    the installer command is not sent over the session, however the run ends;
    and when the run succeeds, the one command sent is the retrieval of the
    remote kubeconfig, the merge tool ran on the destination, with the content
    it had, and on a temporary file holding the retrieved document after the
    loopback rewrite, and the destination holds at the end what the tool
    printed. *)
Theorem RunE_skip_install_merge (E : Env) (fl : Flags) (w : World) (old : File) :
  skip_install fl = true ->
  merge fl = true ->
  fs w !! resolve w (local_path fl) = Some old ->
  ~ In (installK3scommand E fl) (commands_since w (snd (RunE E fl w)))
  /\ (fst (RunE E fl w) = None ->
      commands_since w (snd (RunE E fl w)) = [getConfigcommand]
      /\ exists res name data,
           remote_run E (executed (trace w)) getConfigcommand = Ok res
           /\ let doc := rewriteLoopback (StdOut res) (ip fl) in
              let absPath := resolve w (local_path fl) in
              let wt := with_temp_file name doc w in
              file_reader wt absPath = Some (f_data old)
              /\ file_reader wt name = Some doc
              /\ kubectl_config_view E (file_reader wt)
                   ("KUBECONFIG=" +:+ absPath +:+ ":" +:+ name) = Ok data
              /\ f_data <$> fs (snd (RunE E fl w)) !! absPath = Some data).
Proof.
  intros Hskip Hmerge Hdest. split.
  { unfold commands_since.
    destruct (RunE_skip_install_commands E fl w Hskip) as [-> | ->].
    - rewrite drop_all. intros [].
    - rewrite drop_app_length. intros [Heq|[]].
      now apply (installer_is_not_retrieval E fl). }
  intros Hok.
  destruct (RunE E fl w) as [r wf] eqn:Hrun. simpl in Hok. subst r. simpl snd.
  destruct (RunE_skip_merge_inv E fl w wf Hskip Hmerge Hrun)
    as (res & data & w2 & w3 & w4 & close & Hres & Hfs2 & Hcwd2 & Hum2 & Hex2
        & Hmerged & Hwrite & ->).
  destruct (mergeConfigs_ok_inv E _ _ _ _ _ Hmerged)
    as (name & Hfresh & Htool & Hfs3 & Hcwd3 & Hex3).
  destruct (writeConfig_ok_inv _ _ _ _ _ Hwrite) as (Hfs4 & Hcwd4 & _ & Hex4).
  destruct (quiet_run_close close (add_event EvSSHClose w4))
    as (Hfs5 & _ & _ & _ & _ & _ & _ & Hex5).
  rewrite (resolve_cwd w w2 name Hcwd2), Hfs2 in Hfresh.
  split.
  - unfold commands_since. rewrite Hex5. simpl. rewrite executed_app. simpl.
    rewrite app_nil_r, Hex4, Hex3, Hex2. apply drop_app_length.
  - exists res, name, data. split; [exact Hres|]. cbv zeta.
    assert (Hrd : file_reader (with_temp_file name
                     (rewriteLoopback (StdOut res) (ip fl)) w2)
                  = file_reader (with_temp_file name
                     (rewriteLoopback (StdOut res) (ip fl)) w)).
    { apply file_reader_ext; unfold with_temp_file; simpl; [|exact Hcwd2].
      now rewrite (resolve_cwd w w2 name Hcwd2), Hum2, Hfs2. }
    rewrite Hrd in Htool.
    assert (Hne : resolve w name <> resolve w (local_path fl)) by congruence.
    repeat split.
    + unfold file_reader, with_temp_file. simpl.
      change (resolve (set_fs _ w) ?p) with (resolve w p).
      rewrite resolve_resolve, lookup_insert_ne by exact Hne.
      now rewrite Hdest.
    + unfold file_reader, with_temp_file. simpl.
      change (resolve (set_fs _ w) ?p) with (resolve w p).
      now rewrite lookup_insert_eq.
    + exact Htool.
    + rewrite Hfs5. simpl. rewrite Hfs4, resolve_resolve, lookup_insert_eq.
      reflexivity.
Qed.

Lemma RunE_skip_install_merge_witness :
  ~ In (installK3scommand Demo.env Demo.flags_skip_merge)
       (commands_since Demo.world
          (snd (RunE Demo.env Demo.flags_skip_merge Demo.world)))
  /\ commands_since Demo.world
       (snd (RunE Demo.env Demo.flags_skip_merge Demo.world))
     = [getConfigcommand]
  /\ exists res name data,
       remote_run Demo.env (executed (trace Demo.world)) getConfigcommand = Ok res
       /\ let doc := rewriteLoopback (StdOut res) (ip Demo.flags_skip_merge) in
          let absPath := resolve Demo.world (local_path Demo.flags_skip_merge) in
          let wt := with_temp_file name doc Demo.world in
          file_reader wt absPath = Some (f_data Demo.home_file)
          /\ file_reader wt name = Some doc
          /\ kubectl_config_view Demo.env (file_reader wt)
               ("KUBECONFIG=" +:+ absPath +:+ ":" +:+ name) = Ok data
          /\ f_data <$> fs (snd (RunE Demo.env Demo.flags_skip_merge Demo.world))
                          !! absPath = Some data.
Proof.
  destruct (RunE_skip_install_merge Demo.env Demo.flags_skip_merge Demo.world
              Demo.home_file) as [Hnever Hdone].
  - reflexivity.
  - reflexivity.
  - vm_compute. reflexivity.
  - split; [exact Hnever|]. apply Hdone. vm_compute. reflexivity.
Defined.

(** * Further properties *)
Lemma events_since_prompted_close (path : string) (close : CloseFunc) (w : World) :
  events_since w (snd (run_close close (prompted path (add_event EvAgentDial w))))
  = EvAgentDial :: prompt_events path
    ++ match close with noopCloseFunc => [] | sshAgentConn_Close => [EvAgentClose] end.
Proof.
  apply events_since_app. destruct close; simpl; rewrite <- !app_assoc; reflexivity.
Qed.

(** The result of [loadPublickey] and the events it adds, on an encrypted key. *)
Lemma loadPublickey_encrypted_events (E : Env) (path : string) (w : World)
  (key : list byte) :
  fst (ioutil_ReadFile path w) = Ok key ->
  ssh_ParsePrivateKey E key = Err encrypted_key_message ->
  events_since w (snd (loadPublickey E path w)) =
    match fst (sshAgent E (path +:+ ".pub") w) with
    | (Some _, _) => [EvAgentDial]
    | (None, close) =>
        EvAgentDial :: prompt_events path
        ++ match close with
           | noopCloseFunc => []
           | sshAgentConn_Close => [EvAgentClose]
           end
    end.
Proof.
  intros Hread Hparse.
  rewrite (loadPublickey_encrypted E path w key Hread Hparse). cbv zeta.
  destruct (fst (sshAgent E (path +:+ ".pub") w)) as [[a|] close].
  - now apply events_since_app.
  - destruct (ssh_ParsePrivateKeyWithPassphrase E key _);
      apply events_since_prompted_close.
Qed.

(** X1: [loadPublickey] returns an authentication method exactly when it returns
    no error: never both, never neither. *)
Theorem loadPublickey_auth_iff_no_error (E : Env) (path : string) (w : World) :
  fst (fst (fst (loadPublickey E path w))) = None
  <-> snd (fst (loadPublickey E path w)) <> None.
Proof.
  destruct (fst (ioutil_ReadFile path w)) as [key|e] eqn:Hread.
  - destruct (ssh_ParsePrivateKey E key) as [signer|err] eqn:Hparse.
    + rewrite (loadPublickey_parsed E path w key signer Hread Hparse). simpl.
      split; [discriminate | congruence].
    + destruct (String.string_dec err encrypted_key_message) as [->|Hne].
      * rewrite (loadPublickey_encrypted E path w key Hread Hparse). cbv zeta.
        destruct (fst (sshAgent E (path +:+ ".pub") w)) as [[a|] close].
        -- simpl. split; [discriminate | congruence].
        -- destruct (ssh_ParsePrivateKeyWithPassphrase E key _); simpl;
             (split; [discriminate | congruence]) || (split; [congruence | reflexivity]).
      * rewrite (loadPublickey_fatal_parse E path w key err Hread Hparse Hne).
        simpl. split; [congruence | reflexivity].
  - rewrite (loadPublickey_read_error E path w e Hread). simpl.
    split; [congruence | reflexivity].
Qed.

(** X2: [loadPublickey] changes no file, and what it does beyond reading is one
    of four things: nothing; a dial of the agent; the dial and one passphrase
    prompt; or the dial, one prompt and the close of the agent connection. *)
Theorem loadPublickey_effects (E : Env) (path : string) (w : World) :
  fs (snd (loadPublickey E path w)) = fs w
  /\ (let evs := events_since w (snd (loadPublickey E path w)) in
      evs = []
      \/ evs = [EvAgentDial]
      \/ evs = EvAgentDial :: prompt_events path
      \/ evs = EvAgentDial :: prompt_events path ++ [EvAgentClose]).
Proof.
  split; [apply quiet_loadPublickey|]. cbv zeta.
  destruct (fst (ioutil_ReadFile path w)) as [key|e] eqn:Hread.
  - destruct (ssh_ParsePrivateKey E key) as [signer|err] eqn:Hparse.
    + rewrite (loadPublickey_parsed E path w key signer Hread Hparse).
      left. apply events_since_refl.
    + destruct (String.string_dec err encrypted_key_message) as [->|Hne].
      * rewrite (loadPublickey_encrypted_events E path w key Hread Hparse).
        destruct (fst (sshAgent E (path +:+ ".pub") w)) as [[a|] [|]]; auto.
      * rewrite (loadPublickey_fatal_parse E path w key err Hread Hparse Hne).
        left. apply events_since_refl.
  - rewrite (loadPublickey_read_error E path w e Hread).
    left. apply events_since_refl.
Qed.

(** X3: The agent method is returned exactly when a key the agent lists has the
    blob of the local public key. *)
Theorem sshAgent_used_iff_match (E : Env) (publicKeyPath : string) (w : World) :
  fst (fst (sshAgent E publicKeyPath w)) <> None
  <-> exists a pubkey parsedkey key,
        agent w = Some a
        /\ fst (ioutil_ReadFile publicKeyPath w) = Ok pubkey
        /\ ssh_ParseAuthorizedKey E pubkey = Ok parsedkey
        /\ In key (fst (agent_List a)) /\ Blob key = parsedkey.
Proof.
  unfold sshAgent, net_Dial_SSH_AUTH_SOCK, bind, emit, ret.
  change (agent (add_event EvAgentDial w)) with (agent w).
  destruct (agent w) as [a|]; simpl.
  2:{ split; [congruence | intros (? & ? & ? & ? & [=] & _)]. }
  destruct (length (fst (agent_List a)) =? 0)%nat eqn:Hlen.
  { simpl. split; [congruence|].
    intros (a' & pub & blob & key & [= <-] & _ & _ & Hin & _).
    apply Nat.eqb_eq in Hlen.
    destruct (fst (agent_List a)); [destruct Hin | discriminate]. }
  rewrite ReadFile_world, ReadFile_add_event.
  destruct (fst (ioutil_ReadFile publicKeyPath w)) as [pub|e] eqn:Hread.
  2:{ simpl. split; [congruence | intros (? & ? & ? & ? & _ & [=] & _)]. }
  destruct (ssh_ParseAuthorizedKey E pub) as [blob|e] eqn:Hparse.
  2:{ simpl. split; [congruence|].
      intros (? & ? & ? & ? & _ & [= <-] & Hp & _). congruence. }
  destruct (some_key_matches (fst (agent_List a)) blob) eqn:Hm; simpl.
  - split; [intros _ | discriminate].
    apply some_key_matches_iff in Hm as (key & Hin & Hb).
    now exists a, pub, blob, key.
  - split; [congruence|].
    intros (a' & pub' & blob' & key & [= <-] & [= <-] & Hp & Hin & Hb).
    assert (blob' = blob) by congruence. subst blob'.
    assert (some_key_matches (fst (agent_List a)) blob = true)
      by (apply some_key_matches_iff; eauto).
    congruence.
Qed.

Lemma sshAgent_match (E : Env) (publicKeyPath : string) (w : World) (a : Agent)
  (pubkey parsedkey : list byte) :
  agent w = Some a ->
  fst (ioutil_ReadFile publicKeyPath w) = Ok pubkey ->
  ssh_ParseAuthorizedKey E pubkey = Ok parsedkey ->
  some_key_matches (fst (agent_List a)) parsedkey = true ->
  fst (sshAgent E publicKeyPath w)
  = (Some (PublicKeysCallback (agent_Signers a)), sshAgentConn_Close).
Proof.
  intros Hagent Hread Hparse Hmatch.
  unfold sshAgent, net_Dial_SSH_AUTH_SOCK, bind, emit, ret.
  change (agent (add_event EvAgentDial w)) with (agent w). rewrite Hagent.
  destruct (length (fst (agent_List a)) =? 0)%nat eqn:Hlen.
  { apply Nat.eqb_eq in Hlen.
    destruct (fst (agent_List a)); discriminate. }
  now rewrite ReadFile_world, ReadFile_add_event, Hread, Hparse, Hmatch.
Qed.

Lemma sshAgent_no_match (E : Env) (publicKeyPath : string) (w : World) (a : Agent)
  (pubkey parsedkey : list byte) :
  agent w = Some a ->
  fst (ioutil_ReadFile publicKeyPath w) = Ok pubkey ->
  ssh_ParseAuthorizedKey E pubkey = Ok parsedkey ->
  fst (agent_List a) <> [] ->
  some_key_matches (fst (agent_List a)) parsedkey = false ->
  fst (sshAgent E publicKeyPath w) = (None, noopCloseFunc).
Proof.
  intros Hagent Hread Hparse Hkeys Hmatch.
  unfold sshAgent, net_Dial_SSH_AUTH_SOCK, bind, emit, ret.
  change (agent (add_event EvAgentDial w)) with (agent w). rewrite Hagent.
  destruct (length (fst (agent_List a)) =? 0)%nat eqn:Hlen.
  { apply Nat.eqb_eq in Hlen.
    destruct (fst (agent_List a)); [congruence | discriminate]. }
  now rewrite ReadFile_world, ReadFile_add_event, Hread, Hparse, Hmatch.
Qed.

Lemma sshAgent_unusable (E : Env) (publicKeyPath : string) (w : World) (a : Agent) :
  agent w = Some a ->
  fst (agent_List a) = []
  \/ (exists e, fst (ioutil_ReadFile publicKeyPath w) = Err e)
  \/ (exists pubkey e, fst (ioutil_ReadFile publicKeyPath w) = Ok pubkey
                       /\ ssh_ParseAuthorizedKey E pubkey = Err e) ->
  fst (sshAgent E publicKeyPath w) = (None, sshAgentConn_Close).
Proof.
  intros Hagent Hcase.
  unfold sshAgent, net_Dial_SSH_AUTH_SOCK, bind, emit, ret.
  change (agent (add_event EvAgentDial w)) with (agent w). rewrite Hagent.
  destruct (length (fst (agent_List a)) =? 0)%nat eqn:Hlen; [reflexivity|].
  rewrite ReadFile_world, ReadFile_add_event.
  destruct Hcase as [Hnil|[[e Hread]|(pub & e & Hread & Hparse)]].
  - rewrite Hnil in Hlen. discriminate.
  - now rewrite Hread.
  - now rewrite Hread, Hparse.
Qed.

Lemma some_key_matches_false (keys : list AgentKey) (parsedkey : list byte) :
  (forall key, In key keys -> Blob key <> parsedkey) ->
  some_key_matches keys parsedkey = false.
Proof.
  intros Hnone. destruct (some_key_matches keys parsedkey) eqn:Hm; [|reflexivity].
  apply some_key_matches_iff in Hm as (key & Hin & Hb).
  now destruct (Hnone key Hin).
Qed.

(** X4: An encrypted key whose public half the agent holds: the agent method is
    returned after the dial alone, with the connection's [Close] for the
    caller to run; the terminal is not used. *)
Theorem loadPublickey_agent_match (E : Env) (path : string) (w : World)
  (key : list byte) (a : Agent) (pubkey parsedkey : list byte) (k : AgentKey) :
  fst (ioutil_ReadFile path w) = Ok key ->
  ssh_ParsePrivateKey E key = Err encrypted_key_message ->
  agent w = Some a ->
  fst (ioutil_ReadFile (path +:+ ".pub") w) = Ok pubkey ->
  ssh_ParseAuthorizedKey E pubkey = Ok parsedkey ->
  In k (fst (agent_List a)) ->
  Blob k = parsedkey ->
  fst (loadPublickey E path w)
    = (Some (PublicKeysCallback (agent_Signers a)), sshAgentConn_Close, None)
  /\ events_since w (snd (loadPublickey E path w)) = [EvAgentDial].
Proof.
  intros Hread Hparse Hagent Hpub Hauth Hin Hblob.
  assert (Hm : some_key_matches (fst (agent_List a)) parsedkey = true)
    by (apply some_key_matches_iff; eauto).
  pose proof (sshAgent_match E _ w a pubkey parsedkey Hagent Hpub Hauth Hm) as Hres.
  split.
  - rewrite (loadPublickey_encrypted E path w key Hread Hparse). cbv zeta.
    now rewrite Hres.
  - rewrite (loadPublickey_encrypted_events E path w key Hread Hparse).
    now rewrite Hres.
Qed.

Lemma loadPublickey_agent_match_witness :
  fst (loadPublickey Demo.env "/home/alice/.ssh/id_locked" Demo.world)
    = (Some (PublicKeysCallback (agent_Signers Demo.the_agent)),
       sshAgentConn_Close, None)
  /\ events_since Demo.world
       (snd (loadPublickey Demo.env "/home/alice/.ssh/id_locked" Demo.world))
     = [EvAgentDial].
Proof.
  apply (loadPublickey_agent_match Demo.env "/home/alice/.ssh/id_locked"
           Demo.world Demo.locked_key Demo.the_agent Demo.alice_pub Demo.alice_pub
           {| Blob := Demo.alice_pub; Comment := "alice" |}).
  - vm_compute. reflexivity.
  - vm_compute. reflexivity.
  - reflexivity.
  - vm_compute. reflexivity.
  - vm_compute. reflexivity.
  - right. left. reflexivity.
  - reflexivity.
Defined.

(** X5: An encrypted key and an agent that holds keys, none of them the local
    one: the passphrase is asked for, and the agent connection, which was
    opened, is closed neither here nor by the release function returned. *)
Theorem loadPublickey_unmatched_agent_left_open (E : Env) (path : string)
  (w : World) (key : list byte) (a : Agent) (pubkey parsedkey : list byte) :
  fst (ioutil_ReadFile path w) = Ok key ->
  ssh_ParsePrivateKey E key = Err encrypted_key_message ->
  agent w = Some a ->
  fst (ioutil_ReadFile (path +:+ ".pub") w) = Ok pubkey ->
  ssh_ParseAuthorizedKey E pubkey = Ok parsedkey ->
  fst (agent_List a) <> [] ->
  (forall k, In k (fst (agent_List a)) -> Blob k <> parsedkey) ->
  events_since w (snd (loadPublickey E path w))
    = EvAgentDial :: prompt_events path
  /\ snd (fst (fst (loadPublickey E path w))) = noopCloseFunc.
Proof.
  intros Hread Hparse Hagent Hpub Hauth Hkeys Hnone.
  pose proof (sshAgent_no_match E _ w a pubkey parsedkey Hagent Hpub Hauth Hkeys
                (some_key_matches_false _ _ Hnone)) as Hres.
  split.
  - rewrite (loadPublickey_encrypted_events E path w key Hread Hparse).
    rewrite Hres. now rewrite app_nil_r.
  - rewrite (loadPublickey_encrypted E path w key Hread Hparse). cbv zeta.
    rewrite Hres.
    now destruct (ssh_ParsePrivateKeyWithPassphrase E key _).
Qed.

Lemma loadPublickey_unmatched_agent_left_open_witness :
  events_since AgentCases.world_bob_agent
    (snd (loadPublickey Demo.env "/home/alice/.ssh/id_locked" AgentCases.world_bob_agent))
    = EvAgentDial :: prompt_events "/home/alice/.ssh/id_locked"
  /\ snd (fst (fst (loadPublickey Demo.env "/home/alice/.ssh/id_locked"
                      AgentCases.world_bob_agent))) = noopCloseFunc.
Proof.
  apply (loadPublickey_unmatched_agent_left_open Demo.env
           "/home/alice/.ssh/id_locked" AgentCases.world_bob_agent Demo.locked_key
           AgentCases.bob_agent Demo.alice_pub Demo.alice_pub).
  - vm_compute. reflexivity.
  - vm_compute. reflexivity.
  - reflexivity.
  - vm_compute. reflexivity.
  - vm_compute. reflexivity.
  - discriminate.
  - intros k [<-|[]]. vm_compute. discriminate.
Defined.

(** X6: An encrypted key and an agent that answers but cannot be used (it lists
    no key, or the public key file cannot be read or parsed): the passphrase is
    asked for and the agent connection is closed, once, when [loadPublickey]
    returns. *)
Theorem loadPublickey_unusable_agent_closed (E : Env) (path : string)
  (w : World) (key : list byte) (a : Agent) :
  fst (ioutil_ReadFile path w) = Ok key ->
  ssh_ParsePrivateKey E key = Err encrypted_key_message ->
  agent w = Some a ->
  fst (agent_List a) = []
  \/ (exists e, fst (ioutil_ReadFile (path +:+ ".pub") w) = Err e)
  \/ (exists pubkey e, fst (ioutil_ReadFile (path +:+ ".pub") w) = Ok pubkey
                       /\ ssh_ParseAuthorizedKey E pubkey = Err e) ->
  events_since w (snd (loadPublickey E path w))
  = EvAgentDial :: prompt_events path ++ [EvAgentClose].
Proof.
  intros Hread Hparse Hagent Hcase.
  rewrite (loadPublickey_encrypted_events E path w key Hread Hparse).
  now rewrite (sshAgent_unusable E _ w a Hagent Hcase).
Qed.

Lemma loadPublickey_unusable_agent_closed_witness :
  events_since AgentCases.world_empty_agent
    (snd (loadPublickey Demo.env "/home/alice/.ssh/id_locked"
            AgentCases.world_empty_agent))
  = EvAgentDial :: prompt_events "/home/alice/.ssh/id_locked" ++ [EvAgentClose].
Proof.
  apply (loadPublickey_unusable_agent_closed Demo.env
           "/home/alice/.ssh/id_locked" AgentCases.world_empty_agent Demo.locked_key
           AgentCases.empty_agent).
  - vm_compute. reflexivity.
  - vm_compute. reflexivity.
  - reflexivity.
  - left. reflexivity.
Defined.

(** ** More on persistence *)

Lemma writeConfig_unfold (path : string) (data : list byte) (sm : bool) (w : World) :
  writeConfig path data sm w =
    let w0 := if sm then w
              else add_event (EvStdout ("Saving file to: " +:+ resolve w path
                                        +:+ newline)) w in
    let (r, w') := ioutil_WriteFile (resolve w path) data perm_0600 w0 in
    (r, w').
Proof.
  unfold writeConfig, bind, filepath_Abs, fmt_Printf, emit, ret.
  destruct sm; cbv [negb]; cbv iota beta zeta;
    destruct (ioutil_WriteFile _ _ _ _) as [[e|] w']; reflexivity.
Qed.


(** X8: When the destination cannot be opened for writing, [writeConfig] returns
    the error of the open as it is and the file system is what it was. *)
Theorem writeConfig_open_failure (path : string) (data : list byte) (sm : bool)
  (w : World) (e : error) :
  os_fault w (OpOpenWrite (resolve w path)) = Some e ->
  fst (writeConfig path data sm w) = Some e
  /\ fs (snd (writeConfig path data sm w)) = fs w.
Proof.
  intros Hfault. rewrite writeConfig_unfold. cbv zeta. unfold ioutil_WriteFile.
  destruct sm.
  - rewrite !resolve_resolve, Hfault. split; reflexivity.
  - change (resolve (add_event _ w) ?p) with (resolve w p).
    rewrite resolve_resolve.
    change (os_fault (add_event _ w)) with (os_fault w).
    rewrite Hfault. split; reflexivity.
Qed.

(** X9: The write is not atomic: when the destination opens and the disk takes
    fewer bytes than were passed, [writeConfig] reports an error and the
    destination holds the bytes that fitted, in place of what it held. *)
Theorem writeConfig_short_write (path : string) (data : list byte) (sm : bool)
  (w : World) (n : nat) :
  os_fault w (OpOpenWrite (resolve w path)) = None ->
  disk_room w (resolve w path) = Some n ->
  (n < length data)%nat ->
  fst (writeConfig path data sm w) = Some "short write"
  /\ f_data <$> fs (snd (writeConfig path data sm w)) !! resolve w path
     = Some (take n data).
Proof.
  intros Hfault Hroom Hn. rewrite writeConfig_unfold. cbv zeta.
  unfold ioutil_WriteFile.
  assert (Hshort : (length (take n data) <? length data)%nat = true).
  { apply Nat.ltb_lt. rewrite length_take. lia. }
  destruct sm.
  - rewrite !resolve_resolve, Hfault, Hroom, Hshort. simpl.
    now rewrite lookup_insert_eq.
  - change (resolve (add_event _ w) ?p) with (resolve w p).
    rewrite resolve_resolve.
    change (os_fault (add_event _ w)) with (os_fault w).
    change (disk_room (add_event _ w)) with (disk_room w).
    rewrite Hfault, Hroom, Hshort. simpl.
    now rewrite lookup_insert_eq.
Qed.


Lemma writeConfig_open_failure_witness :
  fst (writeConfig "kubeconfig" Demo.k3s_yaml false FaultCases.world_read_only_home)
    = Some "permission denied"
  /\ fs (snd (writeConfig "kubeconfig" Demo.k3s_yaml false
                FaultCases.world_read_only_home))
     = fs FaultCases.world_read_only_home.
Proof.
  apply (writeConfig_open_failure "kubeconfig" Demo.k3s_yaml false
           FaultCases.world_read_only_home "permission denied").
  vm_compute. reflexivity.
Defined.

Lemma writeConfig_short_write_witness :
  fst (writeConfig "kubeconfig" Demo.k3s_yaml false FaultCases.world_full_disk)
    = Some "short write"
  /\ f_data <$> fs (snd (writeConfig "kubeconfig" Demo.k3s_yaml false
                           FaultCases.world_full_disk))
                  !! resolve FaultCases.world_full_disk "kubeconfig"
     = Some (take 7 Demo.k3s_yaml).
Proof.
  apply (writeConfig_short_write "kubeconfig" Demo.k3s_yaml false
           FaultCases.world_full_disk 7).
  - vm_compute. reflexivity.
  - vm_compute. reflexivity.
  - vm_compute. lia.
Defined.


Lemma session_app (t1 t2 : list Event) :
  session (t1 ++ t2) = session t1 ++ session t2.
Proof.
  induction t1 as [|ev t1 IH]; [reflexivity|].
  simpl. destruct (is_session ev); simpl; now rewrite IH.
Qed.

Lemma executed_session (tr : list Event) : executed (session tr) = executed tr.
Proof.
  induction tr as [|ev tr IH]; [reflexivity|].
  destruct ev; simpl; now rewrite ?IH.
Qed.

Lemma executed_map_Exec (cmds : list string) :
  executed (map EvSSHExec cmds) = cmds.
Proof. induction cmds as [|c cmds IH]; simpl; [reflexivity | now rewrite IH]. Qed.

(** *** Credential resolution does not depend on the trace *)

Lemma sshAgent_add_event (E : Env) (publicKeyPath : string) (ev : Event)
  (w : World) :
  fst (sshAgent E publicKeyPath (add_event ev w)) = fst (sshAgent E publicKeyPath w).
Proof.
  unfold sshAgent, net_Dial_SSH_AUTH_SOCK, bind, emit, ret.
  change (agent (add_event EvAgentDial (add_event ev w))) with (agent w).
  change (agent (add_event EvAgentDial w)) with (agent w).
  destruct (agent w) as [a|]; [|reflexivity].
  destruct (length (fst (agent_List a)) =? 0)%nat; [reflexivity|].
  rewrite (ReadFile_world _ (add_event EvAgentDial (add_event ev w))),
    (ReadFile_world _ (add_event EvAgentDial w)), !ReadFile_add_event.
  destruct (fst (ioutil_ReadFile publicKeyPath w)) as [pub|e]; [|reflexivity].
  destruct (ssh_ParseAuthorizedKey E pub); [|reflexivity].
  destruct (some_key_matches _ _); reflexivity.
Qed.

Lemma loadPublickey_add_event (E : Env) (path : string) (ev : Event) (w : World) :
  fst (loadPublickey E path (add_event ev w)) = fst (loadPublickey E path w).
Proof.
  pose proof (ReadFile_add_event path ev w) as Hrd.
  destruct (fst (ioutil_ReadFile path w)) as [key|e] eqn:Hread.
  - destruct (ssh_ParsePrivateKey E key) as [signer|err] eqn:Hparse.
    + now rewrite !(loadPublickey_parsed E path _ key signer) by assumption.
    + destruct (String.string_dec err encrypted_key_message) as [->|Hne].
      * rewrite !(loadPublickey_encrypted E path _ key) by assumption.
        cbv zeta. rewrite sshAgent_add_event.
        change (stdin_password (add_event ev w)) with (stdin_password w).
        destruct (fst (sshAgent E (path +:+ ".pub") w)) as [[a|] close];
          [reflexivity|].
        destruct (ssh_ParsePrivateKeyWithPassphrase E key _); reflexivity.
      * now rewrite !(loadPublickey_fatal_parse E path _ key err) by assumption.
  - now rewrite !(loadPublickey_read_error E path _ e) by assumption.
Qed.

Lemma loadPublickey_announced (E : Env) (fl : Flags) (path : string) (w : World) :
  fst (loadPublickey E path (announced E fl w)) = fst (loadPublickey E path w).
Proof. unfold announced. now rewrite !loadPublickey_add_event. Qed.

(** *** What each step adds to the trace *)

Lemma loadPublickey_trace (E : Env) (path : string) (w : World) :
  exists evs, trace (snd (loadPublickey E path w)) = trace w ++ evs
              /\ session evs = [].
Proof.
  destruct (fst (ioutil_ReadFile path w)) as [key|e] eqn:Hread.
  - destruct (ssh_ParsePrivateKey E key) as [signer|err] eqn:Hparse.
    + rewrite (loadPublickey_parsed E path w key signer Hread Hparse).
      exists []. now rewrite app_nil_r.
    + destruct (String.string_dec err encrypted_key_message) as [->|Hne].
      * rewrite (loadPublickey_encrypted E path w key Hread Hparse). cbv zeta.
        destruct (fst (sshAgent E (path +:+ ".pub") w)) as [[a|] close].
        -- now exists [EvAgentDial].
        -- assert (Hex : exists evs,
                     trace (snd (run_close close
                                   (prompted path (add_event EvAgentDial w))))
                     = trace w ++ evs /\ session evs = []).
           { destruct close; simpl; eexists; rewrite <- !app_assoc;
               (split; [reflexivity|reflexivity]). }
           destruct (ssh_ParsePrivateKeyWithPassphrase E key _); exact Hex.
      * rewrite (loadPublickey_fatal_parse E path w key err Hread Hparse Hne).
        exists []. now rewrite app_nil_r.
  - rewrite (loadPublickey_read_error E path w e Hread).
    exists []. now rewrite app_nil_r.
Qed.

Lemma writeConfig_trace (path : string) (data : list byte) (sm : bool) (w : World) :
  trace (snd (writeConfig path data sm w))
  = trace w ++ (if sm then []
                else [EvStdout ("Saving file to: " +:+ resolve w path +:+ newline)]).
Proof.
  rewrite writeConfig_unfold. cbv zeta. unfold ioutil_WriteFile.
  destruct sm.
  - rewrite app_nil_r. destruct (os_fault w _); [reflexivity|].
    destruct (_ <? _)%nat; reflexivity.
  - change (os_fault (add_event _ w)) with (os_fault w).
    destruct (os_fault w _); [reflexivity|].
    destruct (_ <? _)%nat; reflexivity.
Qed.

Lemma writeConfig_fs_away (path : string) (data : list byte) (sm : bool)
  (w : World) (q : string) :
  q <> resolve w path ->
  fs (snd (writeConfig path data sm w)) !! q = fs w !! q.
Proof.
  intros Hq. rewrite writeConfig_unfold. cbv zeta. unfold ioutil_WriteFile.
  rewrite !resolve_resolve.
  destruct sm.
  - destruct (os_fault w _); [reflexivity|].
    destruct (_ <? _)%nat; simpl; now rewrite lookup_insert_ne.
  - change (os_fault (add_event _ w)) with (os_fault w).
    destruct (os_fault w _); [reflexivity|].
    destruct (_ <? _)%nat; simpl; now rewrite lookup_insert_ne.
Qed.

Lemma writeConfig_cwd (path : string) (data : list byte) (sm : bool) (w : World) :
  cwd (snd (writeConfig path data sm w)) = cwd w.
Proof.
  rewrite writeConfig_unfold. cbv zeta. unfold ioutil_WriteFile.
  destruct sm.
  - destruct (os_fault w _); [reflexivity|].
    destruct (_ <? _)%nat; reflexivity.
  - change (os_fault (add_event _ w)) with (os_fault w).
    destruct (os_fault w _); [reflexivity|].
    destruct (_ <? _)%nat; reflexivity.
Qed.

Lemma mergeConfigs_trace (E : Env) (path : string) (doc : list byte) (w : World) :
  exists evs, trace (snd (mergeConfigs E path doc w)) = trace w ++ evs
              /\ session evs = [].
Proof.
  pose proof (TempFile_trace (tmpdir w) "k3s-temp-" w) as Htr1.
  destruct (ioutil_TempFile (tmpdir w) "k3s-temp-" w) as [[name|e] w1] eqn:Htmp;
    simpl in Htr1.
  - pose proof (writeConfig_trace name doc true w1) as Htr2.
    rewrite app_nil_r in Htr2.
    destruct (writeConfig name doc true w1) as [[e|] w2] eqn:Hwrite; simpl in Htr2.
    + unfold mergeConfigs, bind, os_TempDir. rewrite Htmp.
      unfold defer, bind. rewrite Hwrite. simpl.
      exists [EvFileClose name]. now rewrite Htr2, Htr1.
    + rewrite (mergeConfigs_until_kubectl E path doc w w1 w2 name Htmp Hwrite).
      cbv zeta. destruct (kubectl_config_view E _ _).
      * destruct (fst (os_Remove name _)); simpl;
          rewrite os_Remove_trace; simpl; rewrite Htr2, Htr1, <- !app_assoc;
          eexists; (split; [reflexivity|reflexivity]).
      * simpl. rewrite Htr2, Htr1, <- !app_assoc.
        eexists; (split; [reflexivity|reflexivity]).
  - unfold mergeConfigs, bind, os_TempDir. rewrite Htmp. simpl.
    exists []. now rewrite app_nil_r, Htr1.
Qed.

(** ** More on merging *)

Lemma TempFile_error_world (dir pfx : string) (w w1 : World) (e : error) :
  ioutil_TempFile dir pfx w = (Err e, w1) -> w1 = w.
Proof.
  unfold ioutil_TempFile.
  destruct (os_fault w OpTempFile); [now intros [= _ <-]|].
  destruct (first_free w _ _ _); [discriminate | now intros [= _ <-]].
Qed.

Lemma writeConfig_silent_trace (path : string) (data : list byte) (w : World) :
  trace (snd (writeConfig path data true w)) = trace w.
Proof.
  rewrite writeConfig_unfold. cbv zeta. unfold ioutil_WriteFile.
  destruct (os_fault w _); [reflexivity|].
  destruct (_ <? _)%nat; reflexivity.
Qed.

Lemma os_Remove_fs (name : string) (w : World) :
  forall q, q <> resolve w name ->
    fs (snd (os_Remove name w)) !! q = fs w !! q.
Proof.
  intros q Hq. unfold os_Remove.
  destruct (os_fault w _); [reflexivity|].
  destruct (fs w !! resolve w name) eqn:Hk; [|reflexivity].
  simpl. now rewrite lookup_delete_ne.
Qed.

(** The file system after [mergeConfigs], away from the temporary file, when
    that file was created. *)
Lemma mergeConfigs_fs_away (E : Env) (path : string) (doc : list byte)
  (w w1 : World) (name : string) :
  ioutil_TempFile (tmpdir w) "k3s-temp-" w = (Ok name, w1) ->
  forall q, q <> resolve w name ->
    fs (snd (mergeConfigs E path doc w)) !! q = fs w !! q.
Proof.
  intros Htmp q Hq.
  destruct (TempFile_ok_fresh _ _ _ _ _ Htmp) as (Hfresh & Hw1).
  assert (H1 : fs w1 !! q = fs w !! q).
  { rewrite Hw1. simpl. now rewrite lookup_insert_ne. }
  assert (Hcwd1 : cwd w1 = cwd w) by now rewrite Hw1.
  pose proof (writeConfig_fs_away name doc true w1 q) as Hframe.
  rewrite (resolve_cwd w w1 name Hcwd1) in Hframe.
  specialize (Hframe Hq).
  destruct (writeConfig name doc true w1) as [[e|] w2] eqn:Hwrite;
    simpl in Hframe.
  - unfold mergeConfigs, bind, os_TempDir. rewrite Htmp.
    unfold defer, bind. rewrite Hwrite. simpl. congruence.
  - destruct (writeConfig_ok_inv _ _ _ _ _ Hwrite) as (_ & Hcwd2 & _ & _).
    rewrite (mergeConfigs_until_kubectl E path doc w w1 w2 name Htmp Hwrite).
    cbv zeta. destruct (kubectl_config_view E _ _); [|simpl; congruence].
    assert (Hrm : forall w3, fs w3 = fs w2 -> cwd w3 = cwd w2 ->
                    fs (snd (os_Remove name w3)) !! q = fs w !! q).
    { intros w3 Hfs3 Hcwd3. rewrite os_Remove_fs.
      - rewrite Hfs3. congruence.
      - rewrite (resolve_cwd w w3 name) by congruence. exact Hq. }
    destruct (fst (os_Remove name _)); simpl; now apply Hrm.
Qed.

Lemma mergeConfigs_existing (E : Env) (path : string) (doc : list byte)
  (w : World) (q : string) (f : File) :
  fs w !! q = Some f ->
  fs (snd (mergeConfigs E path doc w)) !! q = Some f.
Proof.
  intros Hq.
  destruct (ioutil_TempFile (tmpdir w) "k3s-temp-" w) as [[name|e] w1] eqn:Htmp.
  - destruct (TempFile_ok_fresh _ _ _ _ _ Htmp) as (Hfresh & _).
    rewrite (mergeConfigs_fs_away E path doc w w1 name Htmp); [exact Hq|].
    congruence.
  - unfold mergeConfigs, bind, os_TempDir. rewrite Htmp. simpl.
    now rewrite (TempFile_error_world _ _ _ _ _ Htmp).
Qed.

(** X11: [mergeConfigs] leaves every file that was there as it was, the existing
    kubeconfig among them, whatever its outcome: it writes to a name that was
    free. *)
Theorem mergeConfigs_keeps_existing_files (E : Env) (path : string)
  (doc : list byte) (w : World) (q : string) (f : File) :
  fs w !! q = Some f ->
  fs (snd (mergeConfigs E path doc w)) !! q = Some f.
Proof.
  intros Hq.
  destruct (ioutil_TempFile (tmpdir w) "k3s-temp-" w) as [[name|e] w1] eqn:Htmp.
  - destruct (TempFile_ok_fresh _ _ _ _ _ Htmp) as (Hfresh & _).
    rewrite (mergeConfigs_fs_away E path doc w w1 name Htmp); [exact Hq|].
    intros ->. congruence.
  - unfold mergeConfigs, bind, os_TempDir. rewrite Htmp. simpl.
    now rewrite (TempFile_error_world _ _ _ _ _ Htmp).
Qed.

Lemma mergeConfigs_keeps_existing_files_witness :
  fs (snd (mergeConfigs Demo.env_kubectl_fails Demo.home_config Demo.k3s_yaml
             Demo.world)) !! Demo.home_config
  = Some Demo.home_file.
Proof.
  apply (mergeConfigs_keeps_existing_files Demo.env_kubectl_fails
           Demo.home_config Demo.k3s_yaml Demo.world Demo.home_config
           Demo.home_file).
  vm_compute. reflexivity.
Defined.

(** X12: When no temporary file can be created, [mergeConfigs] returns an error
    that says so and nothing has happened: no output, no run of the merge
    tool, no change to a file. *)
Theorem mergeConfigs_tempfile_failure (E : Env) (path : string)
  (doc : list byte) (w : World) (e : error) :
  fst (ioutil_TempFile (tmpdir w) "k3s-temp-" w) = Err e ->
  mergeConfigs E path doc w
  = (Err (fmt_Errorf
            "Could not generate a temporary file to store the kuebeconfig: " e),
     w).
Proof.
  intros Htmp.
  destruct (ioutil_TempFile (tmpdir w) "k3s-temp-" w) as [r w1] eqn:Hrun.
  simpl in Htmp. subst r.
  unfold mergeConfigs, bind, os_TempDir. rewrite Hrun.
  now rewrite (TempFile_error_world _ _ _ _ _ Hrun).
Qed.

Lemma mergeConfigs_tempfile_failure_witness :
  mergeConfigs Demo.env Demo.home_config Demo.k3s_yaml FaultCases.world_no_temp
  = (Err (fmt_Errorf
            "Could not generate a temporary file to store the kuebeconfig: "
            "no space left on device"),
     FaultCases.world_no_temp).
Proof.
  apply (mergeConfigs_tempfile_failure Demo.env Demo.home_config Demo.k3s_yaml
           FaultCases.world_no_temp "no space left on device").
  reflexivity.
Defined.

(** X13: When the new document cannot be written to the temporary file,
    [mergeConfigs] returns the error of the write as it is; the merge tool is
    not run and nothing is printed, and the temporary file that was created
    stays in the file system. *)
Theorem mergeConfigs_write_failure (E : Env) (path : string) (doc : list byte)
  (w w1 w2 : World) (name : string) (e : error) :
  ioutil_TempFile (tmpdir w) "k3s-temp-" w = (Ok name, w1) ->
  writeConfig name doc true w1 = (Some e, w2) ->
  fst (mergeConfigs E path doc w) = Err e
  /\ events_since w (snd (mergeConfigs E path doc w)) = [EvFileClose name]
  /\ is_Some (fs (snd (mergeConfigs E path doc w)) !! resolve w name).
Proof.
  intros Htmp Hwrite.
  destruct (TempFile_ok_fresh _ _ _ _ _ Htmp) as (Hfresh & Hw1).
  pose proof (writeConfig_silent_trace name doc w1) as Htr.
  rewrite Hwrite in Htr. simpl in Htr.
  unfold mergeConfigs, bind, os_TempDir. rewrite Htmp.
  unfold defer, bind. rewrite Hwrite. simpl.
  split; [reflexivity|]. split.
  - apply events_since_app. simpl. rewrite Htr, Hw1. reflexivity.
  - revert Hwrite. rewrite writeConfig_unfold. cbv zeta. unfold ioutil_WriteFile.
    rewrite !resolve_resolve.
    assert (Hres : resolve w1 name = resolve w name) by now rewrite Hw1.
    rewrite Hres.
    destruct (os_fault w1 _).
    + intros [= _ <-]. rewrite Hw1.
      change (fs (set_fs ?f w)) with (f (fs w)).
      rewrite lookup_insert_eq. eauto.
    + destruct (_ <? _)%nat; intros [= _ <-];
        change (fs (set_fs ?f w1)) with (f (fs w1));
        rewrite lookup_insert_eq; eauto.
Qed.

Lemma mergeConfigs_write_failure_witness :
  fst (mergeConfigs Demo.env Demo.home_config Demo.k3s_yaml
         FaultCases.world_read_only_tmp) = Err "read-only file system"
  /\ events_since FaultCases.world_read_only_tmp
       (snd (mergeConfigs Demo.env Demo.home_config Demo.k3s_yaml
               FaultCases.world_read_only_tmp))
     = [EvFileClose Demo.temp_name]
  /\ is_Some (fs (snd (mergeConfigs Demo.env Demo.home_config Demo.k3s_yaml
                         FaultCases.world_read_only_tmp))
                !! resolve FaultCases.world_read_only_tmp Demo.temp_name).
Proof.
  apply (mergeConfigs_write_failure Demo.env Demo.home_config Demo.k3s_yaml
           FaultCases.world_read_only_tmp
           (snd (ioutil_TempFile "/tmp" "k3s-temp-" FaultCases.world_read_only_tmp))
           (snd (writeConfig Demo.temp_name Demo.k3s_yaml true
                   (snd (ioutil_TempFile "/tmp" "k3s-temp-"
                           FaultCases.world_read_only_tmp))))).
  - vm_compute. reflexivity.
  - vm_compute. reflexivity.
Defined.

(** X14: A merge that succeeds: the tool was run once, on the existing path first
    and a fresh temporary file second, that file holding the new document;
    what it printed is the result; and the file system is afterwards exactly
    what it was before, the temporary file being gone. *)
Theorem mergeConfigs_success (E : Env) (path : string) (doc : list byte)
  (w w' : World) (data : list byte) :
  mergeConfigs E path doc w = (Ok data, w') ->
  fs w' = fs w
  /\ exists name,
       fs w !! resolve w name = None
       /\ kubectl_config_view E (file_reader (with_temp_file name doc w))
            ("KUBECONFIG=" +:+ path +:+ ":" +:+ name) = Ok data
       /\ events_since w w'
          = [ EvStdout ("Merging with existing kubeconfig at " +:+ path
                        +:+ newline);
              EvKubectl ("KUBECONFIG=" +:+ path +:+ ":" +:+ name);
              EvFileClose name ].
Proof.
  intros Hrun.
  destruct (ioutil_TempFile (tmpdir w) "k3s-temp-" w) as [[name|e] w1] eqn:Htmp;
    [|unfold mergeConfigs, bind, os_TempDir in Hrun; rewrite Htmp in Hrun;
      discriminate].
  destruct (writeConfig name doc true w1) as [[e|] w2] eqn:Hwrite;
    [unfold mergeConfigs, bind, os_TempDir in Hrun; rewrite Htmp in Hrun;
     unfold defer, bind in Hrun; rewrite Hwrite in Hrun; discriminate|].
  pose proof (writeConfig_silent_trace name doc w1) as Htr2.
  rewrite Hwrite in Htr2. simpl in Htr2.
  pose proof Hrun as Hrun'.
  rewrite (mergeConfigs_until_kubectl E path doc w w1 w2 name Htmp Hwrite) in Hrun'.
  cbv zeta in Hrun'.
  destruct (mergeConfigs_ok_inv E path doc w w' data Hrun)
    as (name' & _ & _ & Hfs & _ & _).
  split; [exact Hfs|].
  destruct (TempFile_ok_fresh _ _ _ _ _ Htmp) as (Hfresh & Hw1).
  destruct (writeConfig_ok_inv _ _ _ _ _ Hwrite) as (Hfs2 & Hcwd2 & _ & _).
  assert (Hreader : file_reader w2 = file_reader (with_temp_file name doc w)).
  { apply file_reader_ext; [|now rewrite Hcwd2, Hw1].
    rewrite Hfs2, Hw1. simpl.
    change (resolve (set_fs _ w) name) with (resolve w name).
    now rewrite lookup_insert_eq, insert_insert_eq. }
  rewrite Hreader in Hrun'.
  destruct (kubectl_config_view E _ _) as [merged|e] eqn:Htool; [|discriminate].
  rewrite !os_Remove_add_event in Hrun'. simpl fst in Hrun'. simpl snd in Hrun'.
  destruct (fst (os_Remove name w2)) eqn:Hrm; [discriminate|].
  injection Hrun' as <- <-.
  exists name. split; [exact Hfresh|]. split; [exact Htool|].
  apply events_since_app. simpl.
  destruct (os_Remove_ok_inv name w2 Hrm) as (_ & _ & ->).
  rewrite Htr2, Hw1. simpl. now rewrite <- !app_assoc.
Qed.

Lemma mergeConfigs_success_witness :
  fs (snd (mergeConfigs Demo.env Demo.home_config Demo.k3s_yaml Demo.world))
    = fs Demo.world
  /\ exists name,
       fs Demo.world !! resolve Demo.world name = None
       /\ kubectl_config_view Demo.env
            (file_reader (with_temp_file name Demo.k3s_yaml Demo.world))
            ("KUBECONFIG=" +:+ Demo.home_config +:+ ":" +:+ name)
          = Ok (Demo.old_config ++ Demo.bytes "---" ++ Demo.k3s_yaml)
       /\ events_since Demo.world
            (snd (mergeConfigs Demo.env Demo.home_config Demo.k3s_yaml Demo.world))
          = [ EvStdout ("Merging with existing kubeconfig at "
                        +:+ Demo.home_config +:+ newline);
              EvKubectl ("KUBECONFIG=" +:+ Demo.home_config +:+ ":" +:+ name);
              EvFileClose name ].
Proof.
  apply (mergeConfigs_success Demo.env Demo.home_config Demo.k3s_yaml Demo.world).
  vm_compute. reflexivity.
Defined.

(** ** The command, step by step *)

Lemma RunE_session (E : Env) (fl : Flags) (w : World) :
  RunE E fl w =
    let r := loadPublickey E (expandPath E (ssh_key fl)) (announced E fl w) in
    match snd (fst r) with
    | Some err =>
        (Some (errors_Wrapf err ("unable to load the ssh key with path "
                                 +:+ fmt_q E (expandPath E (ssh_key fl)))),
         snd r)
    | None =>
        let close := snd (fst (fst r)) in
        let w2 := add_event (EvSSHDial (address_of fl)) (snd r) in
        match ssh_handshake E (address_of fl)
                {| User := user fl; Auth := [fst (fst (fst r))];
                   HostKey := InsecureIgnoreHostKey |} with
        | Some err =>
            (Some (errors_Wrapf err ("unable to connect to " +:+ address_of fl
                                     +:+ " over ssh")),
             snd (run_close close w2))
        | None =>
            (fst (session_body E fl w2),
             snd (run_close close
                    (add_event EvSSHClose (snd (session_body E fl w2)))))
        end
    end.
Proof.
  change (RunE E fl w) with
    ((fmt_Println ("Public IP: " +:+ ip fl);;
      fmt_Printf ("ssh -i " +:+ expandPath E (ssh_key fl) +:+ " " +:+ user fl
                  +:+ "@" +:+ ip fl +:+ newline);;
      do r <- loadPublickey E (expandPath E (ssh_key fl));
      let '(authMethod, closeSSHAgent, err) := r in
      match err with
      | Some err =>
          ret (Some (errors_Wrapf err
            ("unable to load the ssh key with path "
             +:+ fmt_q E (expandPath E (ssh_key fl)))))
      | None =>
          defer (run_close closeSSHAgent) (
            do operator <- NewSSHOperator E (address_of fl)
                             {| User := user fl; Auth := [authMethod];
                                HostKey := InsecureIgnoreHostKey |};
            match operator with
            | Err err =>
                ret (Some (errors_Wrapf err
                  ("unable to connect to " +:+ address_of fl +:+ " over ssh")))
            | Ok _ => defer operator_Close (session_body E fl)
            end)
      end) w).
  unfold announced.
  repeat progress
    (unfold bind, defer, ret, emit, fmt_Println, fmt_Printf, NewSSHOperator,
       operator_Close;
     cbv beta zeta).
  destruct (loadPublickey E _ _) as [[[am close] [err|]] w1];
    simpl fst; simpl snd; cbv beta iota; [reflexivity|].
  destruct (ssh_handshake E _ _);
    [destruct (run_close close _) as [[] w3]; reflexivity|].
  destruct (session_body E fl _) as [r w3]. simpl fst. simpl snd.
  destruct (run_close close _) as [[] w4]. reflexivity.
Qed.

(** *** Inside the session *)

Lemma os_Remove_cwd (name : string) (w : World) :
  cwd (snd (os_Remove name w)) = cwd w.
Proof.
  unfold os_Remove. destruct (os_fault w _); [reflexivity|].
  destruct (fs w !! _); reflexivity.
Qed.

Lemma mergeConfigs_cwd (E : Env) (path : string) (doc : list byte) (w : World) :
  cwd (snd (mergeConfigs E path doc w)) = cwd w.
Proof.
  destruct (ioutil_TempFile (tmpdir w) "k3s-temp-" w) as [[name|e] w1] eqn:Htmp.
  - destruct (TempFile_ok_inv _ _ _ _ _ Htmp) as (Hcwd1 & _ & _).
    pose proof (writeConfig_cwd name doc true w1) as Hcwd2.
    destruct (writeConfig name doc true w1) as [[e|] w2] eqn:Hwrite;
      simpl in Hcwd2.
    + unfold mergeConfigs, bind, os_TempDir. rewrite Htmp.
      unfold defer, bind. rewrite Hwrite. simpl. congruence.
    + rewrite (mergeConfigs_until_kubectl E path doc w w1 w2 name Htmp Hwrite).
      cbv zeta. destruct (kubectl_config_view E _ _); [|simpl; congruence].
      rewrite !os_Remove_add_event. simpl fst. simpl snd.
      pose proof (os_Remove_cwd name w2) as Hcwd3.
      destruct (fst (os_Remove name w2)); simpl; congruence.
  - unfold mergeConfigs, bind, os_TempDir. rewrite Htmp. simpl.
    now rewrite (TempFile_error_world _ _ _ _ _ Htmp).
Qed.

(** The rewrite, merge and write touch no file that was there, the
    destination apart, and add no event of the session. *)
Lemma persist_step_frame (E : Env) (fl : Flags) (res : CommandResult) (w : World) :
  (forall q f, fs w !! q = Some f -> q <> resolve w (local_path fl) ->
     fs (snd (persist_step E fl res w)) !! q = Some f)
  /\ exists evs, trace (snd (persist_step E fl res w)) = trace w ++ evs
                 /\ session evs = [].
Proof.
  unfold persist_step, bind, filepath_Abs, ret.
  destruct (merge fl).
  - pose proof (mergeConfigs_existing E (resolve w (local_path fl))
                  (rewriteLoopback (StdOut res) (ip fl)) w) as Hkeep.
    pose proof (mergeConfigs_cwd E (resolve w (local_path fl))
                  (rewriteLoopback (StdOut res) (ip fl)) w) as Hcwd.
    destruct (mergeConfigs_trace E (resolve w (local_path fl))
                (rewriteLoopback (StdOut res) (ip fl)) w) as (evs & Htr & Hs).
    destruct (mergeConfigs E _ _ w) as [[data|e] w3]; simpl in *.
    + pose proof (writeConfig_fs_away (resolve w (local_path fl)) data false w3)
        as Haway.
      pose proof (writeConfig_trace (resolve w (local_path fl)) data false w3)
        as Htr2.
      destruct (writeConfig _ data false w3) as [[e|] w4]; simpl in *;
        (split;
         [intros q f Hq Hne; rewrite Haway;
          [now apply Hkeep | now rewrite resolve_resolve]
         |eexists; rewrite Htr2, Htr, <- app_assoc; split;
          [reflexivity | now rewrite session_app, Hs]]).
    + split; [intros q f Hq _; now apply Hkeep | now exists evs].
  - pose proof (writeConfig_fs_away (resolve w (local_path fl))
                  (rewriteLoopback (StdOut res) (ip fl)) false w) as Haway.
    pose proof (writeConfig_trace (resolve w (local_path fl))
                  (rewriteLoopback (StdOut res) (ip fl)) false w) as Htr2.
    destruct (writeConfig _ _ false w) as [[e|] w4]; simpl in *;
      (split;
       [intros q f Hq Hne; rewrite Haway;
        [exact Hq | now rewrite resolve_resolve]
       |eexists; rewrite Htr2; split; reflexivity]).
Qed.

(** The session, whatever its outcome: the commands it carries are the
    installer, unless skipped, and then the retrieval, unless the installer
    failed; and no file that was there is touched, the destination apart. *)
Lemma session_body_frame (E : Env) (fl : Flags) (w : World) :
  (forall q f, fs w !! q = Some f -> q <> resolve w (local_path fl) ->
     fs (snd (session_body E fl w)) !! q = Some f)
  /\ exists evs cmds,
       trace (snd (session_body E fl w)) = trace w ++ evs
       /\ session evs = map EvSSHExec cmds
       /\ (cmds = install_commands E fl ++ [getConfigcommand]
           \/ (skip_install fl = false /\ cmds = [installK3scommand E fl]
               /\ exists e, fst (session_body E fl w) = Some (command_error e))).
Proof.
  assert (Hretrieve : forall w0,
            (forall q f, fs w0 !! q = Some f -> q <> resolve w0 (local_path fl) ->
               fs (snd (retrieve_step E fl w0)) !! q = Some f)
            /\ exists evs, trace (snd (retrieve_step E fl w0)) = trace w0 ++ evs
                           /\ session evs = [EvSSHExec getConfigcommand]).
  { intros w0. unfold retrieve_step.
    repeat progress
      (unfold bind, print_result, fmt_Printf, emit, operator_Execute, ret;
       cbv beta iota zeta).
    destruct (remote_run E _ getConfigcommand) as [res|e].
    - match goal with
      | |- context [persist_step E fl res ?w1] =>
          destruct (persist_step_frame E fl res w1) as (Hfs & evs & Htr & Hs)
      end.
      split; [exact Hfs|].
      eexists. rewrite Htr. simpl. rewrite <- !app_assoc. split; [reflexivity|].
      simpl. now rewrite Hs.
    - split; [intros q f Hq _; exact Hq|].
      eexists. simpl. rewrite <- !app_assoc. split; reflexivity. }
  unfold session_body, install_step, install_commands, bind.
  destruct (skip_install fl); cbv [negb]; cbv beta iota.
  - unfold ret. destruct (Hretrieve w) as (Hfs & evs & Htr & Hs).
    split; [exact Hfs|]. exists evs, [getConfigcommand]. auto.
  - repeat progress
      (unfold bind, print_result, fmt_Printf, emit, operator_Execute, ret;
       cbv beta iota zeta).
    destruct (remote_run E _ (installK3scommand E fl)) as [res|e].
    + match goal with
      | |- context [retrieve_step E fl ?w1] =>
          destruct (Hretrieve w1) as (Hfs & evs & Htr & Hs)
      end.
      split; [exact Hfs|].
      eexists. exists [installK3scommand E fl; getConfigcommand].
      rewrite Htr. simpl. rewrite <- !app_assoc. split; [reflexivity|].
      simpl. rewrite Hs. auto.
    + split; [intros q f Hq _; exact Hq|].
      eexists. exists [installK3scommand E fl]. simpl. rewrite <- !app_assoc.
      split; [reflexivity|]. split; [reflexivity|]. right. eauto.
Qed.

(** *** The whole command *)

Lemma trace_run_close_session (c : CloseFunc) (w : World) :
  exists evs, trace (snd (run_close c w)) = trace w ++ evs /\ session evs = [].
Proof.
  destruct c; simpl.
  - exists []. now rewrite app_nil_r.
  - now exists [EvAgentClose].
Qed.

Lemma fs_run_close (c : CloseFunc) (w : World) : fs (snd (run_close c w)) = fs w.
Proof. now destruct c. Qed.

(** The world in which the session opens, when the key was loaded: the files
    are those of the start and no event of a session was added. *)
Lemma loaded_world (E : Env) (fl : Flags) (w : World) :
  let w1 := snd (loadPublickey E (expandPath E (ssh_key fl)) (announced E fl w)) in
  fs w1 = fs w /\ cwd w1 = cwd w
  /\ exists evs, trace w1 = trace w ++ evs /\ session evs = [].
Proof.
  cbv zeta.
  destruct (quiet_loadPublickey E (expandPath E (ssh_key fl)) (announced E fl w))
    as (Hfs & Hcwd & _).
  destruct (loadPublickey_trace E (expandPath E (ssh_key fl)) (announced E fl w))
    as (evs & Htr & Hs).
  split; [exact Hfs|]. split; [exact Hcwd|].
  eexists. rewrite Htr. unfold announced. simpl. rewrite <- !app_assoc.
  split; [reflexivity|]. simpl. exact Hs.
Qed.

(** X15: Whatever the flags and whatever the outcome, the command changes no file
    that was there before it ran, the destination apart: the key files and
    the other files are as they were. *)
Theorem RunE_keeps_other_files (E : Env) (fl : Flags) (w : World)
  (q : string) (f : File) :
  fs w !! q = Some f ->
  q <> resolve w (local_path fl) ->
  fs (snd (RunE E fl w)) !! q = Some f.
Proof.
  intros Hq Hne. rewrite RunE_session. cbv zeta.
  destruct (loaded_world E fl w) as (Hfs & Hcwd & _).
  destruct (snd (fst (loadPublickey E _ _))) as [err|]; simpl snd.
  - now rewrite Hfs.
  - destruct (ssh_handshake E _ _); simpl snd; rewrite fs_run_close.
    + simpl. now rewrite Hfs.
    + simpl.
      match goal with
      | |- context [session_body E fl ?w2] =>
          destruct (session_body_frame E fl w2) as (Hkeep & _)
      end.
      apply Hkeep.
      * simpl. now rewrite Hfs.
      * change (resolve (add_event _ ?w1) ?p) with (resolve w1 p).
        now rewrite (resolve_cwd w _ _ Hcwd).
Qed.

Lemma RunE_keeps_other_files_witness :
  fs (snd (RunE Demo.env Demo.flags_skip_merge Demo.world))
    !! "/home/alice/.ssh/id_rsa"
  = Some {| f_mode := perm_0600; f_data := Demo.plain_key |}.
Proof.
  apply (RunE_keeps_other_files Demo.env Demo.flags_skip_merge Demo.world).
  - vm_compute. reflexivity.
  - vm_compute. discriminate.
Defined.

(** With [--local-path ./kubeconfig] the command writes the file of the clean
    path, [/home/alice/kubeconfig]. *)
Example RunE_unclean_local_path :
  let fl := {| ip := "203.0.113.5"; user := "root";
               ssh_key := "/home/alice/.ssh/id_rsa"; ssh_port := 22;
               skip_install := true; local_path := "./kubeconfig";
               k3s_extra_args := ""; merge := false;
               k3s_version := "v0.8.1" |} in
  fst (RunE Demo.env fl Demo.world) = None
  /\ fs (snd (RunE Demo.env fl Demo.world)) !! "/home/alice/kubeconfig"
     = Some {| f_mode := perm_0644;
               f_data := Demo.bytes "server: https://203.0.113.5:6443" |}
  /\ fs (snd (RunE Demo.env fl Demo.world)) !! "/home/alice/./kubeconfig" = None.
Proof. vm_compute. repeat split. Qed.

Lemma install_step_spec (E : Env) (fl : Flags) (w : World) :
  install_step E fl w =
    if skip_install fl then (None, w)
    else
      let w1 := add_event (EvSSHExec (installK3scommand E fl))
                  (add_event (EvStdout ("ssh: " +:+ installK3scommand E fl
                                        +:+ newline)) w) in
      match remote_run E (executed (trace w)) (installK3scommand E fl) with
      | Err e => (Some (command_error e), w1)
      | Ok res =>
          (None,
           add_event (EvStdout ("Result: " +:+ string_of_list_byte (StdOut res)
                                +:+ " " +:+ string_of_list_byte (StdErr res)
                                +:+ newline)) w1)
      end.
Proof.
  unfold install_step. destruct (skip_install fl); [reflexivity|].
  cbv [negb]. cbv beta iota zeta.
  repeat progress
    (unfold bind, print_result, fmt_Printf, emit, operator_Execute, ret;
     cbv beta iota zeta).
  replace (executed (trace (add_event _ w))) with (executed (trace w))
    by (simpl; rewrite executed_app; simpl; now rewrite app_nil_r).
  destruct (remote_run E _ _); reflexivity.
Qed.

Lemma retrieve_step_spec (E : Env) (fl : Flags) (w : World) :
  retrieve_step E fl w =
    let w1 := add_event (EvSSHExec getConfigcommand)
                (add_event (EvStdout ("ssh: " +:+ getConfigcommand +:+ newline))
                   w) in
    match remote_run E (executed (trace w)) getConfigcommand with
    | Err e => (Some (command_error e), w1)
    | Ok res =>
        persist_step E fl res
          (add_event (EvStdout ("Result: " +:+ string_of_list_byte (StdOut res)
                                +:+ " " +:+ string_of_list_byte (StdErr res)
                                +:+ newline)) w1)
    end.
Proof.
  unfold retrieve_step.
  repeat progress
    (unfold bind, print_result, fmt_Printf, emit, operator_Execute, ret;
     cbv beta iota zeta).
  replace (executed (trace (add_event _ w))) with (executed (trace w))
    by (simpl; rewrite executed_app; simpl; now rewrite app_nil_r).
  destruct (remote_run E _ _); reflexivity.
Qed.

(** The world in which the session body starts, when the key was loaded and
    the connection made. *)
Lemma connected_world (E : Env) (fl : Flags) (w : World) :
  let w2 := add_event (EvSSHDial (address_of fl))
              (snd (loadPublickey E (expandPath E (ssh_key fl))
                      (announced E fl w))) in
  fs w2 = fs w /\ cwd w2 = cwd w /\ umask w2 = umask w
  /\ os_fault w2 = os_fault w /\ disk_room w2 = disk_room w
  /\ executed (trace w2) = executed (trace w).
Proof.
  cbv zeta.
  destruct (quiet_loadPublickey E (expandPath E (ssh_key fl)) (announced E fl w))
    as (Hfs & Hcwd & Hum & _ & _ & Hos & Hroom & Hex).
  repeat split; try assumption.
  simpl. rewrite executed_app, Hex. unfold announced. simpl.
  rewrite !executed_app. simpl. now rewrite !app_nil_r.
Qed.

Lemma commands_since_app (w w' : World) (cmds : list string) :
  executed (trace w') = executed (trace w) ++ cmds ->
  commands_since w w' = cmds.
Proof. unfold commands_since. intros ->. apply drop_app_length. Qed.

Lemma retrieve_step_trace (E : Env) (fl : Flags) (w : World) :
  exists evs, trace (snd (retrieve_step E fl w)) = trace w ++ evs
              /\ session evs = [EvSSHExec getConfigcommand].
Proof.
  rewrite retrieve_step_spec. cbv zeta.
  destruct (remote_run E _ getConfigcommand) as [res|e].
  - match goal with
    | |- context [persist_step E fl res ?w1] =>
        destruct (persist_step_frame E fl res w1) as (_ & evs & Htr & Hs)
    end.
    eexists. rewrite Htr. simpl. rewrite <- !app_assoc. split; [reflexivity|].
    simpl. now rewrite Hs.
  - eexists. simpl. rewrite <- !app_assoc. split; reflexivity.
Qed.

(** The commands a session carries: the installer unless skipped, and the
    retrieval unless the installer failed. *)
Lemma session_body_commands (E : Env) (fl : Flags) (w : World) :
  exists evs,
    trace (snd (session_body E fl w)) = trace w ++ evs
    /\ session evs
       = map EvSSHExec
           (if skip_install fl then [getConfigcommand]
            else match remote_run E (executed (trace w)) (installK3scommand E fl) with
                 | Err _ => [installK3scommand E fl]
                 | Ok _ => [installK3scommand E fl; getConfigcommand]
                 end).
Proof.
  unfold session_body, bind. rewrite install_step_spec.
  destruct (skip_install fl); cbv zeta.
  - unfold ret. apply retrieve_step_trace.
  - destruct (remote_run E (executed (trace w)) (installK3scommand E fl))
      as [r|e].
    + match goal with
      | |- context [retrieve_step E fl ?w1] =>
          destruct (retrieve_step_trace E fl w1) as (evs & Htr & Hs)
      end.
      eexists. rewrite Htr. simpl. rewrite <- !app_assoc. split; [reflexivity|].
      simpl. now rewrite Hs.
    + eexists. simpl. rewrite <- !app_assoc. split; reflexivity.
Qed.

(** X16: The session is used in one way only, decided by how far the command
    gets: no event at all when the key could not be loaded; a dial alone
    when the key was loaded and the connection failed; and when the
    connection was made, a dial, then the retrieval alone when the installer
    is skipped, the installer alone when it failed, the installer and the
    retrieval when it succeeded, and one close, last. *)
Theorem RunE_session_protocol (E : Env) (fl : Flags) (w : World) :
  session (events_since w (snd (RunE E fl w))) =
    match fst (loadPublickey E (expandPath E (ssh_key fl)) w) with
    | (_, _, Some _) => []
    | (authMethod, _, None) =>
        match ssh_handshake E (address_of fl)
                {| User := user fl; Auth := [authMethod];
                   HostKey := InsecureIgnoreHostKey |} with
        | Some _ => [EvSSHDial (address_of fl)]
        | None =>
            EvSSHDial (address_of fl)
            :: map EvSSHExec
                 (if skip_install fl then [getConfigcommand]
                  else match remote_run E (executed (trace w))
                               (installK3scommand E fl) with
                       | Err _ => [installK3scommand E fl]
                       | Ok _ => [installK3scommand E fl; getConfigcommand]
                       end)
            ++ [EvSSHClose]
        end
    end.
Proof.
  rewrite RunE_session. cbv zeta.
  destruct (loaded_world E fl w) as (_ & _ & evs1 & Htr1 & Hs1).
  destruct (connected_world E fl w) as (_ & _ & _ & _ & _ & Hex).
  rewrite <- (loadPublickey_announced E fl (expandPath E (ssh_key fl)) w).
  destruct (loadPublickey E (expandPath E (ssh_key fl)) (announced E fl w))
    as [[[am close] [err|]] w1]; simpl fst in *; simpl snd in *;
    cbv beta iota.
  - rewrite (events_since_app _ _ _ Htr1). exact Hs1.
  - destruct (ssh_handshake E (address_of fl)
                {| User := user fl; Auth := [am];
                   HostKey := InsecureIgnoreHostKey |}); simpl snd.
    + destruct (trace_run_close_session close
                  (add_event (EvSSHDial (address_of fl)) w1))
        as (evs2 & Htr2 & Hs2).
      erewrite events_since_app;
        [|rewrite Htr2; simpl; rewrite Htr1, <- !app_assoc; reflexivity].
      rewrite !session_app, Hs1, Hs2. reflexivity.
    + destruct (session_body_commands E fl
                  (add_event (EvSSHDial (address_of fl)) w1))
        as (evs3 & Htr3 & Hs3).
      rewrite Hex in Hs3.
      match goal with
      | |- context [run_close ?c ?w2] =>
          destruct (trace_run_close_session c w2) as (evs2 & Htr2 & Hs2)
      end.
      erewrite events_since_app;
        [|rewrite Htr2; simpl; rewrite Htr3; simpl; rewrite Htr1,
            <- !app_assoc; reflexivity].
      rewrite !session_app, Hs1, Hs2, Hs3. simpl.
      now rewrite ?app_nil_r.
Qed.

Example session_of_install_run :
  session (events_since Demo.world
             (snd (RunE Demo.env RemoteCases.flags_install Demo.world)))
  = [EvSSHDial "203.0.113.5:22";
     EvSSHExec (installK3scommand Demo.env RemoteCases.flags_install);
     EvSSHExec getConfigcommand; EvSSHClose].
Proof. vm_compute. reflexivity. Qed.

(** X17: When the connection to the host fails, the command returns that error
    with the address, no command is sent and no file is changed; the session,
    which was not opened, is not closed. *)
Theorem RunE_connect_failure (E : Env) (fl : Flags) (w : World)
  (am : option AuthMethod) (close : CloseFunc) (e : error) :
  fst (loadPublickey E (expandPath E (ssh_key fl)) w) = (am, close, None) ->
  ssh_handshake E (address_of fl)
    {| User := user fl; Auth := [am]; HostKey := InsecureIgnoreHostKey |}
    = Some e ->
  fst (RunE E fl w)
    = Some (errors_Wrapf e ("unable to connect to " +:+ address_of fl
                            +:+ " over ssh"))
  /\ fs (snd (RunE E fl w)) = fs w
  /\ commands_since w (snd (RunE E fl w)) = []
  /\ ~ In EvSSHClose (events_since w (snd (RunE E fl w))).
Proof.
  intros Hload Hhs. rewrite RunE_session. cbv zeta.
  rewrite loadPublickey_announced, Hload. simpl fst. simpl snd.
  rewrite Hhs. simpl fst. simpl snd.
  destruct (connected_world E fl w) as (Hfs & _ & _ & _ & _ & Hex).
  destruct (loaded_world E fl w) as (_ & _ & evs1 & Htr1 & Hs1).
  split; [reflexivity|]. split; [now rewrite fs_run_close|].
  destruct (trace_run_close_session close
              (add_event (EvSSHDial (address_of fl))
                 (snd (loadPublickey E (expandPath E (ssh_key fl))
                         (announced E fl w)))))
    as (evs2 & Htr2 & Hs2).
  split.
  - apply commands_since_app. rewrite Htr2, executed_app, Hex.
    rewrite <- (executed_session evs2), Hs2. reflexivity.
  - erewrite events_since_app;
      [|rewrite Htr2; simpl; rewrite Htr1, <- !app_assoc; reflexivity].
    intros Hin.
    assert (Hin' : In EvSSHClose
                     (session (evs1 ++ [EvSSHDial (address_of fl)] ++ evs2))).
    { clear -Hin. induction (evs1 ++ [EvSSHDial (address_of fl)] ++ evs2)
        as [|ev l IH]; [destruct Hin|].
      simpl. destruct Hin as [->|Hin]; [now left|].
      destruct (is_session ev); [right|]; auto. }
    rewrite !session_app, Hs1, Hs2 in Hin'. simpl in Hin'.
    destruct Hin' as [[=]|[]].
Qed.

Lemma RunE_connect_failure_witness :
  fst (RunE RemoteCases.env_refused RemoteCases.flags_install Demo.world)
    = Some (errors_Wrapf "connection refused"
              ("unable to connect to " +:+ address_of RemoteCases.flags_install
               +:+ " over ssh"))
  /\ fs (snd (RunE RemoteCases.env_refused RemoteCases.flags_install Demo.world))
     = fs Demo.world
  /\ commands_since Demo.world
       (snd (RunE RemoteCases.env_refused RemoteCases.flags_install Demo.world)) = []
  /\ ~ In EvSSHClose
         (events_since Demo.world
            (snd (RunE RemoteCases.env_refused RemoteCases.flags_install Demo.world))).
Proof.
  apply (RunE_connect_failure RemoteCases.env_refused RemoteCases.flags_install Demo.world
           (Some (PublicKeys [ {| signer_key := Demo.alice_pub |} ]))
           noopCloseFunc "connection refused").
  - vm_compute. reflexivity.
  - reflexivity.
Defined.

(** What a failing session body leaves, for the command as a whole. *)
Lemma RunE_connected (E : Env) (fl : Flags) (w : World)
  (am : option AuthMethod) (close : CloseFunc) :
  fst (loadPublickey E (expandPath E (ssh_key fl)) w) = (am, close, None) ->
  ssh_handshake E (address_of fl)
    {| User := user fl; Auth := [am]; HostKey := InsecureIgnoreHostKey |}
    = None ->
  exists w2,
    fs w2 = fs w /\ cwd w2 = cwd w /\ umask w2 = umask w
    /\ os_fault w2 = os_fault w /\ disk_room w2 = disk_room w
    /\ executed (trace w2) = executed (trace w)
    /\ fst (RunE E fl w) = fst (session_body E fl w2)
    /\ fs (snd (RunE E fl w)) = fs (snd (session_body E fl w2))
    /\ executed (trace (snd (RunE E fl w)))
       = executed (trace (snd (session_body E fl w2))).
Proof.
  intros Hload Hhs.
  destruct (connected_world E fl w) as (Hfs & Hcwd & Hum & Hos & Hroom & Hex).
  eexists. repeat (split; [eassumption|]).
  rewrite RunE_session. cbv zeta.
  rewrite loadPublickey_announced, Hload. simpl fst. simpl snd.
  rewrite Hhs. simpl fst. simpl snd.
  split; [reflexivity|]. split; [now rewrite fs_run_close|].
  match goal with
  | |- context [run_close close ?w3] =>
      destruct (trace_run_close_session close w3) as (evs & -> & Hs)
  end.
  rewrite executed_app, <- (executed_session evs), Hs. simpl.
  rewrite executed_app. simpl. now rewrite !app_nil_r.
Qed.

(** X18: When the installer fails on the host, the command returns that error;
    the retrieval is not sent and no local file is changed. *)
Theorem RunE_install_failure (E : Env) (fl : Flags) (w : World)
  (am : option AuthMethod) (close : CloseFunc) (e : error) :
  skip_install fl = false ->
  fst (loadPublickey E (expandPath E (ssh_key fl)) w) = (am, close, None) ->
  ssh_handshake E (address_of fl)
    {| User := user fl; Auth := [am]; HostKey := InsecureIgnoreHostKey |}
    = None ->
  remote_run E (executed (trace w)) (installK3scommand E fl) = Err e ->
  fst (RunE E fl w) = Some (command_error e)
  /\ fs (snd (RunE E fl w)) = fs w
  /\ commands_since w (snd (RunE E fl w)) = [installK3scommand E fl].
Proof.
  intros Hskip Hload Hhs Hrun.
  destruct (RunE_connected E fl w am close Hload Hhs)
    as (w2 & Hfs & _ & _ & _ & _ & Hex & -> & -> & Hex').
  unfold session_body, bind.
  rewrite install_step_spec, Hskip, Hex, Hrun in *. cbv zeta in *.
  split; [reflexivity|]. split; [exact Hfs|].
  apply commands_since_app. rewrite Hex'.
  unfold session_body, bind. rewrite install_step_spec, Hskip, Hex, Hrun.
  simpl. rewrite !executed_app, Hex. simpl. now rewrite app_nil_r.
Qed.

Lemma RunE_install_failure_witness :
  fst (RunE RemoteCases.env_install_fails RemoteCases.flags_install Demo.world)
    = Some (command_error "Process exited with status 1")
  /\ fs (snd (RunE RemoteCases.env_install_fails RemoteCases.flags_install Demo.world))
     = fs Demo.world
  /\ commands_since Demo.world
       (snd (RunE RemoteCases.env_install_fails RemoteCases.flags_install Demo.world))
     = [installK3scommand RemoteCases.env_install_fails RemoteCases.flags_install].
Proof.
  apply (RunE_install_failure RemoteCases.env_install_fails RemoteCases.flags_install
           Demo.world
           (Some (PublicKeys [ {| signer_key := Demo.alice_pub |} ]))
           noopCloseFunc "Process exited with status 1").
  - reflexivity.
  - vm_compute. reflexivity.
  - reflexivity.
  - vm_compute. reflexivity.
Defined.

(** A session body that returns no error went through the retrieval and
    into the persistence of what it retrieved. *)
Lemma session_body_reaches_persist (E : Env) (fl : Flags) (w : World) :
  fst (session_body E fl w) = None ->
  exists res w2,
    remote_run E (executed (trace w) ++ install_commands E fl) getConfigcommand
      = Ok res
    /\ session_body E fl w = persist_step E fl res w2
    /\ fs w2 = fs w /\ cwd w2 = cwd w /\ umask w2 = umask w
    /\ os_fault w2 = os_fault w /\ disk_room w2 = disk_room w
    /\ executed (trace w2)
       = executed (trace w) ++ install_commands E fl ++ [getConfigcommand].
Proof.
  unfold session_body, bind, install_commands.
  rewrite install_step_spec.
  destruct (skip_install fl); cbv zeta.
  - unfold ret. rewrite retrieve_step_spec, app_nil_r. cbv zeta.
    destruct (remote_run E (executed (trace w)) getConfigcommand) as [res|e];
      [|discriminate].
    intros _. eexists. eexists. split; [reflexivity|]. split; [reflexivity|].
    repeat split. simpl. rewrite !executed_app. simpl. now rewrite !app_nil_r.
  - destruct (remote_run E (executed (trace w)) (installK3scommand E fl))
      as [r|e]; [|discriminate].
    rewrite retrieve_step_spec. cbv zeta.
    replace (executed (trace (add_event _ (add_event _ (add_event _ w)))))
      with (executed (trace w) ++ [installK3scommand E fl])
      by (simpl; rewrite !executed_app; simpl; now rewrite !app_nil_r).
    destruct (remote_run E _ getConfigcommand) as [res|e]; [|discriminate].
    intros _. eexists. eexists. split; [reflexivity|]. split; [reflexivity|].
    repeat split. simpl. rewrite !executed_app. simpl.
    now rewrite !app_nil_r, <- !app_assoc.
Qed.

(** X19: When the retrieval of the remote kubeconfig fails, the command returns
    that error and no local file is changed. *)
Theorem RunE_retrieval_failure (E : Env) (fl : Flags) (w : World)
  (am : option AuthMethod) (close : CloseFunc) (e : error) :
  fst (loadPublickey E (expandPath E (ssh_key fl)) w) = (am, close, None) ->
  ssh_handshake E (address_of fl)
    {| User := user fl; Auth := [am]; HostKey := InsecureIgnoreHostKey |}
    = None ->
  (skip_install fl = false ->
   exists r, remote_run E (executed (trace w)) (installK3scommand E fl) = Ok r) ->
  remote_run E (executed (trace w) ++ install_commands E fl) getConfigcommand
    = Err e ->
  fst (RunE E fl w) = Some (command_error e)
  /\ fs (snd (RunE E fl w)) = fs w
  /\ commands_since w (snd (RunE E fl w))
     = install_commands E fl ++ [getConfigcommand].
Proof.
  intros Hload Hhs Hinstall Hrun.
  destruct (RunE_connected E fl w am close Hload Hhs)
    as (w2 & Hfs & _ & _ & _ & _ & Hex & -> & -> & Hex').
  assert (Hbody :
    fst (session_body E fl w2) = Some (command_error e)
    /\ fs (snd (session_body E fl w2)) = fs w2
    /\ executed (trace (snd (session_body E fl w2)))
       = executed (trace w2) ++ install_commands E fl ++ [getConfigcommand]).
  { unfold session_body, bind, install_commands in *.
    rewrite install_step_spec, Hex.
    destruct (skip_install fl); cbv zeta.
    - unfold ret. rewrite retrieve_step_spec, Hex. cbv zeta.
      rewrite app_nil_r in Hrun. rewrite Hrun. simpl.
      rewrite !executed_app, Hex. simpl. now rewrite !app_nil_r.
    - destruct (Hinstall eq_refl) as [r ->].
      rewrite retrieve_step_spec. cbv zeta.
      replace (executed (trace (add_event _ (add_event _ (add_event _ w2)))))
        with (executed (trace w) ++ [installK3scommand E fl])
        by (simpl; rewrite !executed_app, Hex; simpl; now rewrite !app_nil_r).
      rewrite Hrun. simpl. rewrite !executed_app, Hex. simpl.
      now rewrite !app_nil_r, <- !app_assoc. }
  destruct Hbody as (Hr & Hf & He).
  split; [exact Hr|]. split; [congruence|].
  apply commands_since_app. now rewrite Hex', He, Hex.
Qed.

Lemma RunE_retrieval_failure_witness :
  fst (RunE RemoteCases.env_retrieval_fails RemoteCases.flags_install Demo.world)
    = Some (command_error "Process exited with status 1")
  /\ fs (snd (RunE RemoteCases.env_retrieval_fails RemoteCases.flags_install Demo.world))
     = fs Demo.world
  /\ commands_since Demo.world
       (snd (RunE RemoteCases.env_retrieval_fails RemoteCases.flags_install Demo.world))
     = install_commands RemoteCases.env_retrieval_fails RemoteCases.flags_install
       ++ [getConfigcommand].
Proof.
  apply (RunE_retrieval_failure RemoteCases.env_retrieval_fails RemoteCases.flags_install
           Demo.world
           (Some (PublicKeys [ {| signer_key := Demo.alice_pub |} ]))
           noopCloseFunc "Process exited with status 1").
  - vm_compute. reflexivity.
  - reflexivity.
  - intros _. eexists. vm_compute. reflexivity.
  - vm_compute. reflexivity.
Defined.

(** X20: Without [merge], a run that succeeds sent the installer, unless skipped,
    and then the retrieval, and the destination holds the retrieved document
    after the loopback rewrite, whether or not it existed before. *)
Theorem RunE_overwrite (E : Env) (fl : Flags) (w : World) :
  merge fl = false ->
  fst (RunE E fl w) = None ->
  commands_since w (snd (RunE E fl w))
    = install_commands E fl ++ [getConfigcommand]
  /\ exists res,
       remote_run E (executed (trace w) ++ install_commands E fl)
         getConfigcommand = Ok res
       /\ f_data <$> fs (snd (RunE E fl w)) !! resolve w (local_path fl)
          = Some (rewriteLoopback (StdOut res) (ip fl)).
Proof.
  intros Hmerge Hok.
  destruct (fst (loadPublickey E (expandPath E (ssh_key fl)) w))
    as [[am close] err] eqn:Hload.
  destruct err as [err|].
  { rewrite RunE_session in Hok. cbv zeta in Hok.
    rewrite loadPublickey_announced, Hload in Hok. discriminate. }
  destruct (ssh_handshake E (address_of fl)
              {| User := user fl; Auth := [am]; HostKey := InsecureIgnoreHostKey |})
    as [e|] eqn:Hhs.
  { rewrite RunE_session in Hok. cbv zeta in Hok.
    rewrite loadPublickey_announced, Hload in Hok. simpl in Hok.
    rewrite Hhs in Hok. discriminate. }
  destruct (RunE_connected E fl w am close Hload Hhs)
    as (w2 & Hfs & Hcwd & _ & _ & _ & Hex & Hr & Hf & Hex').
  rewrite Hr in Hok.
  destruct (session_body_reaches_persist E fl w2 Hok)
    as (res & w3 & Hres & Hbody & Hfs3 & Hcwd3 & _ & _ & _ & Hex3).
  rewrite Hex in Hres.
  rewrite Hbody in Hok, Hf, Hex'. clear Hbody.
  unfold persist_step, bind, filepath_Abs, ret in Hok, Hf, Hex'.
  rewrite Hmerge in Hok, Hf, Hex'.
  pose proof (writeConfig_executed (resolve w3 (local_path fl))
                (rewriteLoopback (StdOut res) (ip fl)) false w3) as Hwex.
  destruct (writeConfig (resolve w3 (local_path fl))
              (rewriteLoopback (StdOut res) (ip fl)) false w3)
    as [[e|] w4] eqn:Hwrite; [discriminate|].
  simpl in Hf, Hex', Hwex.
  destruct (writeConfig_ok_inv _ _ _ _ _ Hwrite) as (Hfs4 & _).
  split.
  - apply commands_since_app. now rewrite Hex', Hwex, Hex3, Hex.
  - exists res. split; [exact Hres|].
    rewrite Hf, Hfs4, resolve_resolve.
    rewrite (resolve_cwd w w3 (local_path fl)) by congruence.
    now rewrite lookup_insert_eq.
Qed.

Lemma RunE_overwrite_witness :
  commands_since Demo.world (snd (RunE Demo.env RemoteCases.flags_install Demo.world))
    = install_commands Demo.env RemoteCases.flags_install ++ [getConfigcommand]
  /\ exists res,
       remote_run Demo.env
         (executed (trace Demo.world)
          ++ install_commands Demo.env RemoteCases.flags_install)
         getConfigcommand = Ok res
       /\ f_data <$> fs (snd (RunE Demo.env RemoteCases.flags_install Demo.world))
                       !! resolve Demo.world (local_path RemoteCases.flags_install)
          = Some (rewriteLoopback (StdOut res) (ip RemoteCases.flags_install)).
Proof.
  apply (RunE_overwrite Demo.env RemoteCases.flags_install Demo.world).
  - reflexivity.
  - vm_compute. reflexivity.
Defined.

(** ** More on the loopback rewrite *)

Lemma Replace_no_match (addr s : string) :
  (forall p j, In p loopback_patterns -> ~ occurs_at p s j) ->
  Replace_from (loopback_replacer addr) 0 s = s.
Proof.
  induction s as [|c s IH]; intros Hnone; [reflexivity|].
  destruct (loopback_lookup addr (String c s))
    as [(p & r & Hp & Heq & _)|[Hlook _]].
  - destruct (Hnone p 0%nat Hp). exists "", r. split; [exact Heq | reflexivity].
  - rewrite (Replace_from_copy _ c s Hlook). f_equal. apply IH.
    intros p j Hp Hoc. apply (Hnone p (S j) Hp). now apply occurs_at_cons.
Qed.

(** X22: A document that holds neither [localhost] nor [127.0.0.1] is left as it
    is. *)
Theorem rewriteLoopback_no_loopback (doc : list byte) (addr : string) :
  (forall p j, In p loopback_patterns ->
     ~ occurs_at p (string_of_list_byte doc) j) ->
  rewriteLoopback doc addr = doc.
Proof.
  intros Hnone. unfold rewriteLoopback, strings_Replace.
  rewrite (Replace_no_match addr _ Hnone).
  apply list_byte_of_string_of_list_byte.
Qed.

Lemma occurs_at_short (p s : string) (j : nat) :
  occurs_at p s j -> (j + String.length p <= String.length s)%nat.
Proof.
  intros (a & b & -> & <-). rewrite !string_app_length. lia.
Qed.

Lemma rewriteLoopback_no_loopback_witness :
  rewriteLoopback (Demo.bytes "k3s") "203.0.113.5" = Demo.bytes "k3s".
Proof.
  apply (rewriteLoopback_no_loopback (Demo.bytes "k3s") "203.0.113.5").
  intros p j Hp Hoc. apply occurs_at_short in Hoc.
  rewrite (pattern_length p Hp) in Hoc. simpl in Hoc. lia.
Defined.

Lemma pattern_in_bytes (p : string) (c : ascii) :
  In p loopback_patterns -> In c (list_ascii_of_string p) -> In c pattern_bytes.
Proof.
  unfold pattern_bytes. intros [<-|[<-|[]]] Hin; apply in_or_app; auto.
Qed.

(** A pattern at the head of [a ++ c :: b], where [c] is no byte of the
    pattern, lies within [a]. *)
Lemma app_cut_prefix (p a r b : string) (c : ascii) :
  ~ In c (list_ascii_of_string p) ->
  a +:+ String c b = p +:+ r ->
  exists a', a = p +:+ a' /\ r = a' +:+ String c b.
Proof.
  revert a. induction p as [|x p IH]; intros a Hc Heq.
  - exists a. split; [reflexivity | now rewrite Heq].
  - destruct a as [|y a]; rewrite ?string_app_cons in Heq.
    + injection Heq as -> _. destruct Hc. now left.
    + injection Heq as -> Heq.
      destruct (IH a) as (a' & -> & ->); [|exact Heq|].
      * intros Hin. apply Hc. now right.
      * exists a'. split; reflexivity.
Qed.

Lemma Replace_split (addr : string) (c : ascii) (b : string) (n : nat) :
  ~ In c pattern_bytes ->
  forall a, (String.length a <= n)%nat ->
    Replace_from (loopback_replacer addr) 0 (a +:+ String c b)
    = Replace_from (loopback_replacer addr) 0 a
      +:+ String c (Replace_from (loopback_replacer addr) 0 b).
Proof.
  intros Hc. induction n as [|n IH]; intros a Hlen.
  - destruct a as [|y a]; [|simpl in Hlen; lia].
    destruct (loopback_lookup addr ("" +:+ String c b))
      as [(p & r & Hp & Heq & _)|[Hlook _]].
    + destruct (app_cut_prefix p "" r b c) as (a' & Ha & _); [|exact Heq|].
      * intros Hin. apply Hc. eapply pattern_in_bytes; eassumption.
      * apply (f_equal String.length) in Ha.
        rewrite string_app_length, (pattern_length p Hp) in Ha.
        simpl in Ha. lia.
    + exact (Replace_from_copy _ c b Hlook).
  - destruct (loopback_lookup addr (a +:+ String c b))
      as [(p & r & Hp & Heq & Hlook)|[Hlook Hnone]].
    + destruct (app_cut_prefix p a r b c) as (a' & -> & ->); [|exact Heq|].
      * intros Hin. apply Hc. eapply pattern_in_bytes; eassumption.
      * rewrite string_app_length, (pattern_length p Hp) in Hlen.
        rewrite string_app_assoc.
        rewrite (Replace_from_match _ p addr (a' +:+ String c b));
          [|intros ->; now apply pattern_length in Hp
           |now apply lookup_pattern].
        rewrite (Replace_from_match _ p addr a');
          [|intros ->; now apply pattern_length in Hp
           |now apply lookup_pattern].
        rewrite IH by lia. now rewrite string_app_assoc.
    + destruct a as [|y a].
      * exact (Replace_from_copy _ c b Hlook).
      * rewrite string_app_cons in *. simpl in Hlen.
        rewrite (Replace_from_copy _ y _ Hlook), IH by lia.
        rewrite (Replace_from_copy _ y a); [now rewrite string_app_cons|].
        destruct (loopback_lookup addr (String y a))
          as [(p & r & Hp & Heq & _)|[Hl _]]; [|exact Hl].
        assert (Hpre : String.prefix p (String y (a +:+ String c b)) = true).
        { apply prefix_split. exists (r +:+ String c b).
          now rewrite <- string_app_cons, Heq, string_app_assoc. }
        rewrite (Hnone p Hp) in Hpre. discriminate.
Qed.

Lemma string_of_list_byte_app (a b : list byte) :
  string_of_list_byte (a ++ b) = string_of_list_byte a +:+ string_of_list_byte b.
Proof.
  unfold string_of_list_byte.
  induction a as [|x a IH]; [reflexivity|].
  simpl. rewrite string_app_cons. now f_equal.
Qed.

Lemma list_byte_of_string_app (a b : string) :
  list_byte_of_string (a +:+ b) = list_byte_of_string a ++ list_byte_of_string b.
Proof.
  unfold list_byte_of_string.
  induction a as [|x a IH]; [reflexivity|].
  rewrite string_app_cons. simpl. now f_equal.
Qed.

(** X23: The rewrite works piece by piece across a byte that is in neither
    pattern, a line break for one: no occurrence reaches over such a byte. *)
Theorem rewriteLoopback_split (a b : list byte) (c : byte) (addr : string) :
  ~ In (ascii_of_byte c) pattern_bytes ->
  rewriteLoopback (a ++ c :: b) addr
  = rewriteLoopback a addr ++ c :: rewriteLoopback b addr.
Proof.
  intros Hc. unfold rewriteLoopback, strings_Replace.
  change (c :: b) with ([c] ++ b).
  rewrite !string_of_list_byte_app.
  change (string_of_list_byte [c] +:+ string_of_list_byte b)
    with (String (ascii_of_byte c) (string_of_list_byte b)).
  rewrite (Replace_split addr _ _ _ Hc _ (le_n _)).
  rewrite list_byte_of_string_app.
  change (String (ascii_of_byte c) ?s) with (String (ascii_of_byte c) "" +:+ s).
  rewrite list_byte_of_string_app. simpl.
  unfold list_byte_of_string at 2. simpl.
  now rewrite byte_of_ascii_of_byte.
Qed.

Lemma rewriteLoopback_split_witness :
  rewriteLoopback (Demo.bytes "host: localhost" ++ "010"%byte
                   :: Demo.bytes "addr: 127.0.0.1") "10.0.0.7"
  = rewriteLoopback (Demo.bytes "host: localhost") "10.0.0.7"
    ++ "010"%byte :: rewriteLoopback (Demo.bytes "addr: 127.0.0.1") "10.0.0.7".
Proof.
  apply (rewriteLoopback_split (Demo.bytes "host: localhost")
           (Demo.bytes "addr: 127.0.0.1") "010"%byte "10.0.0.7").
  vm_compute. intuition discriminate.
Defined.

(** X21: When the key cannot be turned into an authentication method, whatever
    the cause (unreadable file, a file that is no key, a wrong passphrase),
    the command returns that error with the path of the key; the host is not
    dialed and no file is changed. *)
Theorem RunE_key_failure (E : Env) (fl : Flags) (w : World) (err : error) :
  snd (fst (loadPublickey E (expandPath E (ssh_key fl)) w)) = Some err ->
  fst (RunE E fl w)
    = Some (errors_Wrapf err ("unable to load the ssh key with path "
                              +:+ fmt_q E (expandPath E (ssh_key fl))))
  /\ fs (snd (RunE E fl w)) = fs w
  /\ session (events_since w (snd (RunE E fl w))) = [].
Proof.
  intros Hload. rewrite RunE_session. cbv zeta.
  rewrite loadPublickey_announced, Hload. simpl fst. simpl snd.
  destruct (loaded_world E fl w) as (Hfs & _ & evs & Htr & Hs).
  split; [reflexivity|]. split; [exact Hfs|].
  now rewrite (events_since_app _ _ _ Htr).
Qed.

Lemma RunE_key_failure_witness :
  fst (RunE Demo.env RemoteCases.flags_locked Demo.world_remove_fails)
    = Some (errors_Wrapf "x509: decryption password incorrect"
              ("unable to load the ssh key with path "
               +:+ fmt_q Demo.env
                     (expandPath Demo.env (ssh_key RemoteCases.flags_locked))))
  /\ fs (snd (RunE Demo.env RemoteCases.flags_locked Demo.world_remove_fails))
     = fs Demo.world_remove_fails
  /\ session (events_since Demo.world_remove_fails
                (snd (RunE Demo.env RemoteCases.flags_locked Demo.world_remove_fails)))
     = [].
Proof.
  apply (RunE_key_failure Demo.env RemoteCases.flags_locked Demo.world_remove_fails
           "x509: decryption password incorrect").
  vm_compute. reflexivity.
Defined.
